(** * Consoler: a gated logging facade (src/consoler/index.ts)

    Shallow embedding of the [Consoler] class and of the host primitives
    it calls (string methods, [RegExp], [localStorage], [prompt], [alert],
    [console]), followed by the properties of the verbosity gate, the tag
    registry, the authorisation gate and the configuration flow.

    Strings are Rocq strings read as sequences of code units.  The
    embedding of [toUpperCase] and of the pattern [.] is that of the
    JavaScript engine on ASCII text (code units below 128) only: a
    statement that depends on the result of upper-casing, or on what [.]
    accepts, carries the hypothesis that the strings involved are ASCII
    ([isAscii]). *)

From Stdlib Require Import Strings.String Strings.Ascii Lists.List Bool.
From Stdlib Require Import Arith NArith Lia.
From Stdlib Require Import Sorting.Permutation.
Import ListNotations.

Local Open Scope list_scope.
Local Open Scope string_scope.

Set Implicit Arguments.

(** ** JavaScript string primitives *)

Module JsString.

Definition toUpperCaseChar (c : ascii) : ascii :=
  let n := nat_of_ascii c in
  if ((97 <=? n) && (n <=? 122))%nat then ascii_of_nat (n - 32) else c.

(** [String.prototype.toUpperCase], on ASCII text: the letters a to z
    are mapped, every other code unit is kept. *)
Fixpoint toUpperCase (s : string) : string :=
  match s with
  | EmptyString => EmptyString
  | String c s' => String (toUpperCaseChar c) (toUpperCase s')
  end.

(** [Array.prototype.join] on an array of strings; [toString] on such an
    array is [join ","]. *)
Fixpoint join (sep : string) (l : list string) : string :=
  match l with
  | [] => ""
  | [x] => x
  | x :: l' => x ++ sep ++ join sep l'
  end.

Definition arrayToString (l : list string) : string := join "," l.

(** [String.prototype.split] with a one-character separator. *)
Fixpoint split (sep : ascii) (s : string) : list string :=
  match s with
  | EmptyString => [""]
  | String c s' =>
      if Ascii.eqb c sep then "" :: split sep s'
      else match split sep s' with
           | h :: t => String c h :: t
           | [] => [String c ""]
           end
  end.

(** [String.prototype.replace] with a one-character string pattern: only
    the first occurrence is replaced. *)
Fixpoint replace (pat : ascii) (repl : string) (s : string) : string :=
  match s with
  | EmptyString => EmptyString
  | String c s' =>
      if Ascii.eqb c pat then repl ++ s' else String c (replace pat repl s')
  end.

(** Truthiness of a string value. *)
Definition truthy (s : string) : bool :=
  match s with EmptyString => false | _ => true end.

Fixpoint startsWith (p s : string) : bool :=
  match p, s with
  | EmptyString, _ => true
  | String a p', String b s' => Ascii.eqb a b && startsWith p' s'
  | String _ _, EmptyString => false
  end.

(** [String.prototype.includes]: literal substring test. *)
Fixpoint includes (s needle : string) : bool :=
  startsWith needle s ||
  match s with
  | EmptyString => false
  | String _ s' => includes s' needle
  end.

Fixpoint drop (n : nat) (s : string) : string :=
  match n, s with
  | 0, _ => s
  | S n', String _ s' => drop n' s'
  | S _, EmptyString => EmptyString
  end.

Fixpoint take (n : nat) (s : string) : string :=
  match n, s with
  | 0, _ => EmptyString
  | S n', String c s' => String c (take n' s')
  | S _, EmptyString => EmptyString
  end.

Fixpoint chars (s : string) : list ascii :=
  match s with
  | EmptyString => []
  | String c s' => c :: chars s'
  end.

(** ASCII text: every code unit is below 128.  On such text
    [toUpperCase] above is [String.prototype.toUpperCase]. *)
Definition isAsciiChar (c : ascii) : bool := (nat_of_ascii c <? 128)%nat.

Definition isAscii (s : string) : bool := forallb isAsciiChar (chars s).

(** A string is in canonical (upper) case when [toUpperCase] fixes it. *)
Definition upperChar (c : ascii) : bool := Ascii.eqb (toUpperCaseChar c) c.

Definition isUpperCase (s : string) : bool := forallb upperChar (chars s).

(** [lacks sep s]: the character [sep] does not occur in [s]. *)
Definition lacks (sep : ascii) (s : string) : bool :=
  forallb (fun c => negb (Ascii.eqb c sep)) (chars s).

(** [suffix t s]: [t] is what is left of [s] after reading some of it. *)
Definition suffix (t s : string) : Prop := exists pre, s = pre ++ t.

End JsString.

(** ** Regular expressions

    [String.prototype.match] turns a string argument into a [RegExp], so
    the gate and the configuration flow both go through the pattern
    language.  The fragment modelled here: pattern characters, [.], [|],
    capture groups and the greedy quantifiers [*], [+], [?].  Patterns
    using anything else (escapes, classes, braces, anchors, [(?...)]
    groups, lazy quantifiers) are reported as [Unsupported]: the model says
    nothing about them. *)

Module JsRegExp.
Import JsString.

Inductive regex : Type :=
| REmpty
| RChar (c : ascii)
| RDot
| RSeq (a b : regex)
| RAlt (a b : regex)
| RStar (a : regex)
| RPlus (a : regex)
| ROpt (a : regex)
| RGroup (a : regex).

(** Outcome of [new RegExp(source)]. *)
Inductive compiled (A : Type) : Type :=
| Compiled (a : A)
| SyntaxError
| Unsupported.
Arguments SyntaxError {A}.
Arguments Unsupported {A}.

(** *** Parsing *)

(** A disjunction under construction: finished alternatives and the
    terms of the current one, both most recent first. *)
Record frame : Type := mkFrame { alts : list regex; terms : list regex }.

Definition emptyFrame : frame := mkFrame [] [].

Definition seqOf (ts : list regex) : regex :=
  fold_right RSeq REmpty ts.

Fixpoint altOf (l : list regex) : regex :=
  match l with
  | [] => REmpty
  | [a] => a
  | a :: l' => RAlt a (altOf l')
  end.

Definition closeFrame (f : frame) : regex :=
  altOf (rev (seqOf (rev (terms f)) :: alts f)).

Definition isQuantified (r : regex) : bool :=
  match r with
  | RStar _ | RPlus _ | ROpt _ => true
  | _ => false
  end.

(** Characters with a syntactic role in a pattern. *)
Definition isSyntaxChar (c : ascii) : bool :=
  match c with
  | "^" | "$" | "\" | "." | "*" | "+" | "?"
  | "(" | ")" | "[" | "]" | "{" | "}" | "|" => true
  | _ => false
  end%char.

Definition pstate : Type := (frame * list frame)%type.

Definition pushTerm (t : regex) (st : pstate) : pstate :=
  let (cur, stack) := st in (mkFrame (alts cur) (t :: terms cur), stack).

Definition quantify (q : regex -> regex) (lazyMark : bool) (st : pstate)
  : compiled pstate :=
  let (cur, stack) := st in
  match terms cur with
  | [] =>
      match lazyMark, alts cur, stack with
      | true, [], _ :: _ => Unsupported   (* a [(?] group specifier *)
      | _, _, _ => SyntaxError            (* nothing to repeat *)
      end
  | t :: ts =>
      if isQuantified t
      then (if lazyMark then Unsupported else SyntaxError)
      else Compiled (mkFrame (alts cur) (q t :: ts), stack)
  end.

Definition pstep (c : ascii) (st : pstate) : compiled pstate :=
  let (cur, stack) := st in
  match c with
  | "(" => Compiled (emptyFrame, cur :: stack)
  | ")" =>
      match stack with
      | [] => SyntaxError                 (* unmatched ')' *)
      | parent :: rest =>
          Compiled (mkFrame (alts parent)
                      (RGroup (closeFrame cur) :: terms parent), rest)
      end
  | "|" => Compiled (mkFrame (seqOf (rev (terms cur)) :: alts cur) [], stack)
  | "*" => quantify RStar false st
  | "+" => quantify RPlus false st
  | "?" => quantify ROpt true st
  | "." => Compiled (pushTerm RDot st)
  | "^" | "$" | "\" | "[" | "]" | "{" | "}" => Unsupported
  | _ => Compiled (pushTerm (RChar c) st)
  end%char.

Fixpoint psteps (s : string) (st : pstate) : compiled pstate :=
  match s with
  | EmptyString => Compiled st
  | String c s' =>
      match pstep c st with
      | Compiled st' => psteps s' st'
      | SyntaxError => SyntaxError
      | Unsupported => Unsupported
      end
  end.

(** [new RegExp(source)] *)
Definition parse (source : string) : compiled regex :=
  match psteps source (emptyFrame, []) with
  | Compiled (cur, []) => Compiled (closeFrame cur)
  | Compiled (_, _ :: _) => SyntaxError   (* unterminated group *)
  | SyntaxError => SyntaxError
  | Unsupported => Unsupported
  end.

(** *** Matching

    Backtracking matchers in continuation-passing style, as in the
    language specification: a matcher receives the rest of the input and
    a continuation, and returns the input left after the whole match. *)

Definition cont : Type := string -> option string.

(** The line terminators among the ASCII code units (the engine also
    refuses U+2028 and U+2029, which are not ASCII). *)
Definition isLineTerminator (c : ascii) : bool :=
  let n := nat_of_ascii c in ((n =? 10) || (n =? 13))%nat.

Definition orElse (a b : option string) : option string :=
  match a with Some _ => a | None => b end.

(** Greedy repetition with no lower bound: an iteration that consumes
    nothing is rejected. *)
Fixpoint repeatMatcher (ma : string -> cont -> option string)
  (fuel : nat) (s : string) (k : cont) : option string :=
  match fuel with
  | 0 => k s
  | S n =>
      orElse
        (ma s (fun s' =>
                 if (String.length s' <? String.length s)%nat
                 then repeatMatcher ma n s' k else None))
        (k s)
  end.

Fixpoint matcher (r : regex) (s : string) (k : cont) : option string :=
  match r with
  | REmpty => k s
  | RChar c =>
      match s with
      | String x s' => if Ascii.eqb x c then k s' else None
      | EmptyString => None
      end
  | RDot =>
      match s with
      | String x s' => if isLineTerminator x then None else k s'
      | EmptyString => None
      end
  | RSeq a b => matcher a s (fun s' => matcher b s' k)
  | RAlt a b => orElse (matcher a s k) (matcher b s k)
  | RStar a => repeatMatcher (matcher a) (S (String.length s)) s k
  | RPlus a =>
      matcher a s (fun s' => repeatMatcher (matcher a) (S (String.length s')) s' k)
  | ROpt a =>
      orElse
        (matcher a s (fun s' => if (String.length s' <? String.length s)%nat then k s' else None))
        (k s)
  | RGroup a => matcher a s k
  end.

(** One [exec]: the leftmost position at which the pattern matches;
    returns the matched text and the input after it. *)
Fixpoint exec (r : regex) (s : string) : option (string * string) :=
  match matcher r s Some with
  | Some rest => Some (take (String.length s - String.length rest) s, rest)
  | None =>
      match s with
      | EmptyString => None
      | String _ s' => exec r s'
      end
  end.

(** [!!str.match(re)] for a non-global [re]. *)
Definition test (r : regex) (s : string) : bool :=
  match exec r s with Some _ => true | None => false end.

Fixpoint matchAllFrom (fuel : nat) (r : regex) (s : string) : list string :=
  match fuel with
  | 0 => []
  | S n =>
      match exec r s with
      | None => []
      | Some (matched, rest) =>
          matched ::
            (if truthy matched then matchAllFrom n r rest
             else match rest with
                  | EmptyString => []
                  | String _ rest' => matchAllFrom n r rest'
                  end)
      end
  end.

(** [str.match(re)] for a global [re]: every match, or [null]. *)
Definition matchGlobal (r : regex) (s : string) : option (list string) :=
  match matchAllFrom (S (String.length s)) r s with
  | [] => None
  | l => Some l
  end.

(** A matcher that only reads forward: what it hands to its
    continuation is a suffix of what it received. *)
Definition forward (m : string -> cont -> option string) : Prop :=
  forall s k out, m s k = Some out -> exists t, suffix t s /\ k t = Some out.

(** A matcher that consults its continuation only on suffixes of its
    input. *)
Definition extensional (m : string -> cont -> option string) : Prop :=
  forall s k1 k2, (forall t, suffix t s -> k1 t = k2 t) -> m s k1 = m s k2.

(** The pattern that reads exactly the characters of [p]. *)
Definition literalPattern (p : string) : regex :=
  seqOf (map RChar (chars p)).

(** No character of [p] has a syntactic role. *)
Definition isLiteral (p : string) : bool :=
  forallb (fun c => negb (isSyntaxChar c)) (chars p).

End JsRegExp.

(** ** Ordinary objects used as maps

    Own string keys are enumerated with array-index keys first, in
    ascending numeric order, then the other keys in creation order;
    assigning an existing key keeps its place. *)

Module JsObject.
Import JsString.

Definition t (V : Type) : Type := list (string * V).

Fixpoint set {V : Type} (k : string) (v : V) (o : t V) : t V :=
  match o with
  | [] => [(k, v)]
  | (k', v') :: o' =>
      if String.eqb k' k then (k, v) :: o' else (k', v') :: set k v o'
  end.

Fixpoint get {V : Type} (k : string) (o : t V) : option V :=
  match o with
  | [] => None
  | (k', v') :: o' => if String.eqb k' k then Some v' else get k o'
  end.

Definition digit (c : ascii) : option N :=
  let n := N_of_ascii c in
  if ((48 <=? n) && (n <=? 57))%N then Some (n - 48)%N else None.

Fixpoint digits (acc : N) (s : string) : option N :=
  match s with
  | EmptyString => Some acc
  | String c s' =>
      match digit c with
      | Some d => digits (10 * acc + d)%N s'
      | None => None
      end
  end.

(** Canonical numeric strings below 2^32 - 1. *)
Definition arrayIndex (k : string) : option N :=
  match k with
  | EmptyString => None
  | String "0" EmptyString => Some 0%N
  | String "0" _ => None
  | _ =>
      if (String.length k <=? 10)%nat then
        match digits 0 k with
        | Some n => if (n <? 4294967295)%N then Some n else None
        | None => None
        end
      else None
  end.

Fixpoint insertIndex (n : N) (k : string) (l : list (N * string))
  : list (N * string) :=
  match l with
  | [] => [(n, k)]
  | (m, k') :: l' =>
      if (n <? m)%N then (n, k) :: l else (m, k') :: insertIndex n k l'
  end.

Fixpoint indexKeys {V : Type} (o : t V) : list (N * string) :=
  match o with
  | [] => []
  | (k, _) :: o' =>
      match arrayIndex k with
      | Some n => insertIndex n k (indexKeys o')
      | None => indexKeys o'
      end
  end.

Fixpoint nameKeys {V : Type} (o : t V) : list string :=
  match o with
  | [] => []
  | (k, _) :: o' =>
      match arrayIndex k with
      | Some _ => nameKeys o'
      | None => k :: nameKeys o'
      end
  end.

(** [Object.keys] *)
Definition keys {V : Type} (o : t V) : list string :=
  (map snd (indexKeys o) ++ nameKeys o)%list.

End JsObject.

Import JsString JsRegExp.

(** ** The facade *)

Module Consoler.

(** Values handed to the console and to the callback.  Messages are
    [unknown] in the source; object values are opaque references. *)
Inductive value : Type :=
| VUndefined
| VNull
| VString (s : string)
| VError (name : string)
| VRef (id : nat).

(** Calls made to the host, in the order they happen. *)
Inductive event : Type :=
| ConsoleLog (args : list value)
| ConsoleGroupCollapsed (recognizer style : string) (message : value)
    (optionalParams : list value)
| ConsoleInfo (arg : value)
| ConsoleGroupEnd
| CallbackCall (category : string) (message : value)
| PromptCall (message : string)
| AlertCall (message : string)
| SetItem (key value : string)
| Reload.

Inductive exn : Type :=
| RegExpSyntaxError (source : string)
| TypeError
| Error (message : string).

(** How a call ends.  [OutsideModel] is not a behaviour of the program:
    it marks a pattern that the regular-expression fragment above does
    not cover. *)
Inductive outcome (A : Type) : Type :=
| Return (a : A)
| Throw (e : exn)
| OutsideModel.
Arguments Throw {A}.
Arguments OutsideModel {A}.

(** The host: the "verbose" entry of [localStorage], [NODE_ENV], the
    answers the operator will give to successive [prompt]s (an exhausted
    script is an operator who dismisses the dialog), whether
    [window.verbose] is installed, and the calls made so far. *)
Record host : Type := mkHost {
  storage : option string;
  nodeEnv : string;
  replies : list (option string);
  windowVerbose : bool;
  trace : list event
}.

(** The closure stored under a tag name: [_taglog] applied to the
    tag's colour and display name. *)
Record tagFunction : Type := mkTagFunction {
  tagColor : string;
  tagDisplayName : string
}.

(** The fields of a [Consoler].  [callbackFunction] records whether a
    hook is configured; the hook is an external collaborator, so its
    calls are recorded and its own behaviour is not modelled.
    [verboseMode] is [None] when the field holds [undefined]. *)
Record instance : Type := mkInstance {
  password : string;
  callbackFunction : bool;
  verboseMode : option (list string);
  isDevelopment : bool;
  isDebugModeEnable : bool;
  tags : option (JsObject.t tagFunction)
}.

Definition state : Type := (instance * host)%type.

(** *** State and exceptions *)

Definition M (A : Type) : Type := state -> outcome A * state.

Definition ret {A : Type} (a : A) : M A := fun st => (Return a, st).

Definition bind {A B : Type} (m : M A) (f : A -> M B) : M B :=
  fun st =>
    match m st with
    | (Return a, st') => f a st'
    | (Throw e, st') => (Throw e, st')
    | (OutsideModel, st') => (OutsideModel, st')
    end.

Definition throw {A : Type} (e : exn) : M A := fun st => (Throw e, st).

Definition outsideModel {A : Type} : M A := fun st => (OutsideModel, st).

Declare Scope consoler_scope.
Delimit Scope consoler_scope with consoler.
Notation "x <- m ;; k" := (bind m (fun x => k))
  (at level 61, m at next level, right associativity) : consoler_scope.
Notation "m ;; k" := (bind m (fun _ => k))
  (at level 61, right associativity) : consoler_scope.
Local Open Scope consoler_scope.

(** [b && f()] used as a statement. *)
Definition when (b : bool) (m : M unit) : M unit :=
  if b then m else ret tt.

Definition this : M instance := fun st => (Return (fst st), st).

Definition theHost : M host := fun st => (Return (snd st), st).

Definition modifyThis (f : instance -> instance) : M unit :=
  fun st => (Return tt, (f (fst st), snd st)).

Definition modifyHost (f : host -> host) : M unit :=
  fun st => (Return tt, (fst st, f (snd st))).

Definition withVerboseMode (v : option (list string)) (i : instance)
  : instance :=
  mkInstance (password i) (callbackFunction i) v (isDevelopment i)
    (isDebugModeEnable i) (tags i).

Definition withDebugMode (b : bool) (i : instance) : instance :=
  mkInstance (password i) (callbackFunction i) (verboseMode i)
    (isDevelopment i) b (tags i).

Definition withTags (o : JsObject.t tagFunction) (i : instance) : instance :=
  mkInstance (password i) (callbackFunction i) (verboseMode i)
    (isDevelopment i) (isDebugModeEnable i) (Some o).

Definition withStorage (v : option string) (h : host) : host :=
  mkHost v (nodeEnv h) (replies h) (windowVerbose h) (trace h).

Definition withReplies (r : list (option string)) (h : host) : host :=
  mkHost (storage h) (nodeEnv h) r (windowVerbose h) (trace h).

Definition withWindowVerbose (b : bool) (h : host) : host :=
  mkHost (storage h) (nodeEnv h) (replies h) b (trace h).

Definition record (es : list event) (h : host) : host :=
  mkHost (storage h) (nodeEnv h) (replies h) (windowVerbose h)
    (trace h ++ es)%list.

Definition emit (e : event) : M unit := modifyHost (record [e]).

(** *** Host primitives *)

(** [localStorage.getItem("verbose")] *)
Definition getItem : M (option string) :=
  fun st => (Return (storage (snd st)), st).

(** [localStorage.setItem("verbose", v)] *)
Definition setItem (v : string) : M unit :=
  modifyHost (fun h => record [SetItem "verbose" v] (withStorage (Some v) h)).

Definition prompt (message : string) : M (option string) :=
  fun st =>
    let h := record [PromptCall message] (snd st) in
    match replies h with
    | [] => (Return None, (fst st, h))
    | r :: rs => (Return r, (fst st, withReplies rs h))
    end.

Definition alert (message : string) : M unit := emit (AlertCall message).

Definition valueOfReply (r : option string) : value :=
  match r with Some s => VString s | None => VNull end.

(** [new RegExp(source)] inside a method. *)
Definition newRegExp (source : string) : M regex :=
  match parse source with
  | Compiled r => ret r
  | SyntaxError => throw (RegExpSyntaxError source)
  | Unsupported => outsideModel
  end.

(** *** Methods of the class *)

Definition _getErrorTrace : value := VError "Trace".

Definition _getStylesOption (identifier color : string) : string * string :=
  ("%c" ++ "[" ++ identifier ++ "]",
   "color: white; background: " ++ color
     ++ "; padding:1px 3px; border-radius:2px").

Definition _log (color identifier : string) (message : value)
  (optionalParams : list value) : M unit :=
  let error := _getErrorTrace in
  let (recognizer, style) := _getStylesOption identifier color in
  i <- this ;;
  when (isDebugModeEnable i)
    (emit (ConsoleGroupCollapsed recognizer style message optionalParams)) ;;
  i <- this ;;
  when (isDebugModeEnable i) (emit (ConsoleInfo error)) ;;
  i <- this ;;
  when (isDebugModeEnable i) (emit ConsoleGroupEnd).

Definition _getLocalVerbose : M (option string) :=
  localverbose <- getItem ;;
  match localverbose with
  | Some v => if truthy v then ret (Some (toUpperCase v)) else ret None
  | None => ret None
  end.

Definition _searchInLocalVerbose (value : string) : M bool :=
  localverbose <- _getLocalVerbose ;;
  let refinedValue := toUpperCase value in
  match localverbose with
  | Some lv => r <- newRegExp refinedValue ;; ret (test r lv)
  | None => ret false
  end.

(** [this.callbackFunction?.(category, message)] *)
Definition callCallback (category : string) (message : value) : M unit :=
  i <- this ;;
  when (callbackFunction i) (emit (CallbackCall category message)).

Definition _taglog (color identifier : string) (message : value)
  (optionalParams : list value) : M unit :=
  tag <- _searchInLocalVerbose (toUpperCase identifier) ;;
  when tag (_log color ("consoler:" ++ identifier) message optionalParams) ;;
  when tag (callCallback (toUpperCase identifier) message).

Definition log (message : value) (optionalParams : list value) : M unit :=
  info <- _searchInLocalVerbose "INFO" ;;
  when info (_log "#03a9f4" "consoler:INFO" message optionalParams) ;;
  when info (callCallback "INFO" message).

Definition warn (message : value) (optionalParams : list value) : M unit :=
  warn <- _searchInLocalVerbose "WARN" ;;
  when warn (_log "#ffc107" "consoler:WARN" message optionalParams) ;;
  when warn (callCallback "WARN" message).

Definition error (message : value) (optionalParams : list value) : M unit :=
  error <- _searchInLocalVerbose "ERROR" ;;
  when error (_log "#f55656" "consoler:ERROR" message optionalParams) ;;
  when error (callCallback "ERROR" message).

Definition success (message : value) (optionalParams : list value) : M unit :=
  success <- _searchInLocalVerbose "SUCCESS" ;;
  when success (_log "#19c720" "consoler:SUCCESS" message optionalParams) ;;
  when success (callCallback "SUCCESS" message).

Definition _setLocalVerbose : M unit :=
  i <- this ;;
  match verboseMode i with
  | Some l =>
      setItem (join "," l) ;;
      modifyThis (withDebugMode true)
  | None => throw TypeError
  end.

Definition _addDefaultValue : M unit :=
  i <- this ;;
  if negb (isDebugModeEnable i) && isDevelopment i
  then _setLocalVerbose else ret tt.

Definition _setDefaultOptions : M unit :=
  modifyHost (withWindowVerbose true) ;;
  emit (ConsoleLog [VString "verbose now accessable!"]) ;;
  _addDefaultValue ;;
  i <- this ;;
  if isDebugModeEnable i then
    lv <- _getLocalVerbose ;;
    modifyThis (withVerboseMode (option_map (split ",") lv)) ;;
    i <- this ;;
    match verboseMode i with
    | Some l =>
        success (VString "Now you can see : (")
          [VString (arrayToString l); VString ") logs."]
    | None => throw TypeError
    end
  else ret tt.

Definition _autorizeDeveloper : M bool :=
  i <- this ;;
  let exceptedPassword := password i in
  if isDevelopment i then ret true
  else
    pass <- prompt "Enter Your Development Password? " ;;
    emit (ConsoleLog [valueOfReply pass]) ;;
    ret (match pass with
         | Some p => String.eqb p exceptedPassword
         | None => false
         end).

Definition LF : string := String (ascii_of_nat 10) EmptyString.

Definition _getPromptMessage (i : instance) : string * option (list string) :=
  let (promptTagString, tagsNames) :=
    match tags i with
    | Some o =>
        let tagsNames := JsObject.keys o in
        (" available tags: " ++ LF ++ " "
           ++ arrayToString
                (map (fun tagName =>
                        toUpperCase ("🚀 " ++ tagName ++ " " ++ LF))
                   tagsNames),
         Some tagsNames)
    | None => ("", None)
    end in
  ("Enter verbose mode? options:(ex:'warn,Info,..'): " ++ LF
     ++ " 🔵 Info        🟠 Warn           🔴 Error       🟢 Success "
     ++ LF ++ promptTagString,
   tagsNames).

Definition staticRegStr : string := "(INFO)|(WARN)|(SUCCESS)|(ERROR)".

(** The source text handed to [new RegExp] by [_getRegex]. *)
Definition regStr (tagsNames : option (list string)) : string :=
  match tagsNames with
  | Some names =>
      staticRegStr
        ++ replace "," ""
             (arrayToString
                (map (fun name => "|(" ++ toUpperCase name ++ ")") names))
        ++ ""
  | None => staticRegStr
  end.

Definition _getRegex (tagsNames : option (list string)) : M regex :=
  newRegExp (regStr tagsNames).

Definition _getVerboseMode : M bool :=
  i <- this ;;
  let (promptMessage, tagsNames) := _getPromptMessage i in
  reply <- prompt promptMessage ;;
  let mode := option_map toUpperCase reply in
  regex <- _getRegex tagsNames ;;
  let verboseOptions :=
    match mode with
    | Some m => matchGlobal regex m
    | None => None
    end in
  match verboseOptions with
  | Some l => modifyThis (withVerboseMode (Some l)) ;; ret true
  | None => alert "Wrong Verbose Mode!" ;; ret false
  end.

Definition _setVerboseAndReload : M unit :=
  _setLocalVerbose ;;
  emit Reload.

(** The statement [_verbose] runs once authorised: state
    PromptingVerbosity of the configuration flow. *)
Definition promptingVerbosity : M unit :=
  ok <- _getVerboseMode ;;
  if ok then _setVerboseAndReload else ret tt.

Definition _verbose : M unit :=
  isAuthorized <- _autorizeDeveloper ;;
  if isAuthorized then
    emit (ConsoleLog [VString "Authorized"]) ;;
    promptingVerbosity
  else emit (ConsoleLog [VString "Not Authorized"]).

(** *** Tag registry and construction *)

Record verboseTag : Type := mkTag { displayName : string; color : string }.

Record consolerParams : Type := mkParams {
  paramPassword : string;
  defaultDeveloperMode : list string;
  paramTags : option (list verboseTag);
  onMessageCallback : bool
}.

Definition notHex : exn := Error "Tag Color in not Hex".

(** The field initialisers: [isDevelopment] from [NODE_ENV],
    [isDebugModeEnable] from what is persisted. *)
Definition fieldInitializers : M unit :=
  h <- theHost ;;
  lv <- _getLocalVerbose ;;
  modifyThis (fun i =>
    mkInstance (password i) (callbackFunction i) (verboseMode i)
      (String.eqb (nodeEnv h) "development")
      (match lv with Some _ => true | None => false end) (tags i)).

(** The constructor body before the tags are looked at. *)
Definition initialise (p : consolerParams) : M unit :=
  fieldInitializers ;;
  modifyThis (fun i =>
    mkInstance (paramPassword p) (onMessageCallback p)
      (Some (defaultDeveloperMode p)) (isDevelopment i)
      (isDebugModeEnable i) (tags i)) ;;
  _setDefaultOptions.

Definition blank : instance := mkInstance "" false None false false None.

Section Registry.

(** [isHex] comes from [./helper], which is not part of the sources
    at hand; the registry is modelled over any validator. *)
Variable isHex : string -> bool.

Fixpoint tagsFunctions (l : list verboseTag)
  : M (list (string * tagFunction)) :=
  match l with
  | [] => ret []
  | tag :: l' =>
      if isHex (color tag) then
        fs <- tagsFunctions l' ;;
        ret ((displayName tag,
              mkTagFunction (color tag) (displayName tag)) :: fs)
      else throw notHex
  end.

Definition _getTagsObject (l : list verboseTag)
  : M (JsObject.t tagFunction) :=
  fs <- tagsFunctions l ;;
  ret (fold_left (fun a v => JsObject.set (fst v) (snd v) a) fs []).

(** [if (tags) { this.tags = this._getTagsObject(tags) }] *)
Definition registerTags (l : option (list verboseTag)) : M unit :=
  match l with
  | Some l =>
      tagsObj <- _getTagsObject l ;;
      modifyThis (withTags tagsObj)
  | None => ret tt
  end.

(** [new Consoler(p)]: the field initialisers and the constructor
    body down to [_setDefaultOptions], then the tags. *)
Definition constructor (p : consolerParams) : M unit :=
  initialise p ;;
  registerTags (paramTags p).

(** [new Consoler(p)] on a host. *)
Definition construct (p : consolerParams) (h : host)
  : outcome unit * state :=
  constructor p (blank, h).

End Registry.

(** The property names every plain object inherits from
    [Object.prototype]. *)
Definition inheritedNames : list string :=
  ["constructor"; "hasOwnProperty"; "isPrototypeOf"; "propertyIsEnumerable";
   "toLocaleString"; "toString"; "valueOf"; "__proto__";
   "__defineGetter__"; "__defineSetter__"; "__lookupGetter__";
   "__lookupSetter__"].

(** Calling [consoler.tags[name](message, ...optionalParams)].  A name
    that is not an own key but is inherited from [Object.prototype] finds
    a host value there; what calling it does is outside the model. *)
Definition callTag (name : string) (message : value)
  (optionalParams : list value) : M unit :=
  i <- this ;;
  match tags i with
  | Some o =>
      match JsObject.get name o with
      | Some f =>
          _taglog (tagColor f) (tagDisplayName f) message optionalParams
      | None =>
          if existsb (String.eqb name) inheritedNames
          then outsideModel else throw TypeError
      end
  | None => throw TypeError
  end.

(** *** The dispatch surface

    The four public methods and the generated tag functions have one
    shape; [dispatch] names the call of any of them. *)

Inductive entry : Type :=
| Log
| Warn
| Failure
| Success
| Tag (f : tagFunction).

Definition dispatch (e : entry) (message : value)
  (optionalParams : list value) : M unit :=
  match e with
  | Log => log message optionalParams
  | Warn => warn message optionalParams
  | Failure => error message optionalParams
  | Success => success message optionalParams
  | Tag f => _taglog (tagColor f) (tagDisplayName f) message optionalParams
  end.

(** The category an entry is gated on, the colour and the label it is
    displayed with. *)
Definition category (e : entry) : string :=
  match e with
  | Log => "INFO"
  | Warn => "WARN"
  | Failure => "ERROR"
  | Success => "SUCCESS"
  | Tag f => tagDisplayName f
  end.

Definition colorOf (e : entry) : string :=
  match e with
  | Log => "#03a9f4"
  | Warn => "#ffc107"
  | Failure => "#f55656"
  | Success => "#19c720"
  | Tag f => tagColor f
  end.

(** One collapsed group on the display sink. *)
Definition groupOf (e : entry) (message : value)
  (optionalParams : list value) : list event :=
  let (recognizer, style) :=
    _getStylesOption ("consoler:" ++ category e) (colorOf e) in
  [ConsoleGroupCollapsed recognizer style message optionalParams;
   ConsoleInfo _getErrorTrace;
   ConsoleGroupEnd].

Definition callbackOf (i : instance) (e : entry) (message : value)
  : list event :=
  if callbackFunction i
  then [CallbackCall (toUpperCase (category e)) message] else [].

End Consoler.

(** ** A hex-colour validator *)

Module Helper.

Definition isHexDigit (c : ascii) : bool :=
  let n := nat_of_ascii c in
  (((48 <=? n) && (n <=? 57)) || ((65 <=? n) && (n <=? 70))
   || ((97 <=? n) && (n <=? 102)))%nat.

(** Modelled from the spec: [isHex] of [./helper] is not among the
    sources; the specification describes it as an optional [#] followed
    by 3 or 6 hex digits. *)
Definition isHex (s : string) : bool :=
  let body := match s with String "#" s' => s' | _ => s end in
  forallb isHexDigit (chars body)
  && ((List.length (chars body) =? 3) || (List.length (chars body) =? 6))%nat.

End Helper.

(** ** Vocabulary of the specification *)

Module Spec.
Import Consoler.

(** The persisted set, as the store reads it: absent when nothing or the
    empty string is stored. *)
Definition persisted (h : host) : option string :=
  match storage h with
  | Some v => if truthy v then Some v else None
  | None => None
  end.

(** [VerbosityStore.contains], the gate. *)
Definition contains (c : string) (st : state) : outcome bool :=
  fst (_searchInLocalVerbose c st).

(** A category present in the persisted set as a substring,
    case-insensitively. *)
Definition presentIn (c : string) (h : host) : Prop :=
  exists v, persisted h = Some v
            /\ includes (toUpperCase v) (toUpperCase c) = true.

Definition isGroup (ev : event) : bool :=
  match ev with ConsoleGroupCollapsed _ _ _ _ => true | _ => false end.

Definition isCallback (ev : event) : bool :=
  match ev with CallbackCall _ _ => true | _ => false end.

Definition isInteraction (ev : event) : bool :=
  match ev with PromptCall _ | AlertCall _ => true | _ => false end.

Definition isWrite (ev : event) : bool :=
  match ev with SetItem _ _ => true | _ => false end.

(** What a call added to the trace. *)
Definition emitted (before after : state) : list event :=
  skipn (List.length (trace (snd before))) (trace (snd after)).

(** Exactly one display group and, with a hook configured, exactly one
    hook call on (upper-case category, message). *)
Definition emitsOnce (e : entry) (message : value) (before after : state)
  : Prop :=
  List.length (filter isGroup (emitted before after)) = 1
  /\ (callbackFunction (fst before) = true ->
      filter isCallback (emitted before after)
      = [CallbackCall (toUpperCase (category e)) message]).

(** What the constructor's [success] call emits when [stored] is the
    persisted value. *)
Definition announcement (hook : bool) (stored : string) : list event :=
  let message := VString "Now you can see : (" in
  if includes (toUpperCase stored) "SUCCESS" then
    (groupOf Success message
       [VString (arrayToString (split "," (toUpperCase stored)));
        VString ") logs."]
     ++ (if hook then [CallbackCall "SUCCESS" message] else []))%list
  else [].

(** Construction auto-seeds: development environment, nothing
    persisted. *)
Definition autoSeeds (h : host) : bool :=
  String.eqb (nodeEnv h) "development"
  && match persisted h with Some _ => false | None => true end.

(** The built-in category names, in the order of the pattern. *)
Definition builtIns : list string := ["INFO"; "WARN"; "SUCCESS"; "ERROR"].

(** One alternative of the known-category pattern: a group holding the
    escaped name, that is, the name read character by character. *)
Definition alternative (name : string) : regex :=
  seqOf [RGroup (literalPattern name)].

(** The alternation of the built-in names and every registered tag
    name, each escaped. *)
Definition knownCategories (tagsNames : option (list string)) : regex :=
  altOf (map alternative
           (builtIns ++ map toUpperCase
                          (match tagsNames with Some l => l | None => [] end))).

(** The match set the specification describes for an operator reply. *)
Definition verboseOptions (tagsNames : option (list string))
  (reply : option string) : option (list string) :=
  match reply with
  | Some r => matchGlobal (knownCategories tagsNames) (toUpperCase r)
  | None => None
  end.

(** The host after a [prompt]: the call is recorded and one scripted
    reply is used up. *)
Definition prompted (message : string) (h : host) : host :=
  withReplies (tl (replies h)) (record [PromptCall message] h).

Definition nextReply (h : host) : option string :=
  match replies h with r :: _ => r | [] => None end.

(** PromptingVerbosity as specified: an absent match set alerts and
    leaves the persisted state as it was, a match set is stored through
    [VerbosityStore.set] and followed by a reload. *)
Definition promptingVerbosityAsSpecified (st : state) : Prop :=
  let (i, h) := st in
  let (promptMessage, tagsNames) := _getPromptMessage i in
  promptingVerbosity st =
    match verboseOptions tagsNames (nextReply h) with
    | Some l =>
        (Return tt,
         (withDebugMode true (withVerboseMode (Some l) i),
          record [SetItem "verbose" (join "," l); Reload]
            (withStorage (Some (join "," l)) (prompted promptMessage h))))
    | None =>
        (Return tt,
         (i, record [AlertCall "Wrong Verbose Mode!"]
               (prompted promptMessage h)))
    end.

(** A tag name with no pattern syntax and no comma in it. *)
Definition plainName (name : string) : bool :=
  forallb (fun c => negb (isSyntaxChar c) && negb (Ascii.eqb c ","))
    (chars name).

Definition registeredNames (i : instance) : list string :=
  match tags i with Some o => JsObject.keys o | None => [] end.

(** *** ASCII inputs

    The persisted value, the operator's replies and the registered tag
    names are ASCII text. *)

Definition asciiStored (h : host) : bool :=
  match storage h with Some v => isAscii v | None => true end.

Definition asciiReplies (h : host) : bool :=
  forallb (fun r => match r with Some s => isAscii s | None => true end)
    (replies h).

Definition asciiNames (i : instance) : bool :=
  forallb isAscii (registeredNames i).

End Spec.

(** ** Concrete configurations used below *)

Module Scenario.
Import Consoler Spec.

Definition devHost : host := mkHost None "development" [] false [].

Definition prodHost : host := mkHost None "production" [] false [].

(** A development build whose only category is a tag called "c++". *)
Definition cppParams : consolerParams :=
  mkParams "secret" ["c++"] (Some [mkTag "c++" "#fff"]) true.

Definition cppState : state := snd (construct Helper.isHex cppParams devHost).

Definition cppEntry : entry := Tag (mkTagFunction "#fff" "c++").

(** A production build constructed before anything was persisted; the
    entry "verbose" is then written by another writer of the same
    storage (a second tab, the application itself). *)
Definition plainParams : consolerParams := mkParams "secret" ["INFO"] None true.

Definition lateState : state :=
  let (i, h) := snd (construct Helper.isHex plainParams prodHost) in
  (i, withStorage (Some "INFO") h).

(** A development build whose default tokens are in lower case. *)
Definition lowerParams : consolerParams :=
  mkParams "secret" ["warn"; "info"] None false.

(** A production instance with one tag, "a.b", at the point where the
    operator, already authorised, answers "axb". *)
Definition dotParams : consolerParams :=
  mkParams "secret" ["INFO"] (Some [mkTag "a.b" "#fff"]) false.

Definition dotState : state :=
  let (i, h) := snd (construct Helper.isHex dotParams prodHost) in
  (i, withReplies [Some "axb"] h).

(** The same with two plain tags and the answer "warn, db info". *)
Definition plainTagsParams : consolerParams :=
  mkParams "secret" ["INFO"]
    (Some [mkTag "net" "#0af"; mkTag "db" "#fa0"]) false.

Definition plainTagsState : state :=
  let (i, h) := snd (construct Helper.isHex plainTagsParams prodHost) in
  (i, withReplies [Some "warn, db info"] h).

(** A production instance that read "WARN" at construction. *)
Definition warnState : state :=
  snd (construct Helper.isHex plainParams
         (mkHost (Some "WARN") "production" [] false [])).

End Scenario.

(** ** Vocabulary of the further properties *)

Module Behaviour.
Import Consoler Spec.

(** The closure [_getTagsObject] stores for a tag. *)
Definition functionOf (t : verboseTag) : tagFunction :=
  mkTagFunction (color t) (displayName t).

(** The last tag of a list that carries a given display name. *)
Fixpoint lastNamed (name : string) (l : list verboseTag) : option verboseTag :=
  match l with
  | [] => None
  | t :: l' =>
      match lastNamed name l' with
      | Some u => Some u
      | None => if String.eqb (displayName t) name then Some t else None
      end
  end.

Definition validTags (isHex : string -> bool) (l : list verboseTag) : bool :=
  forallb (fun t => isHex (color t)) l.

Definition isReload (ev : event) : bool :=
  match ev with Reload => true | _ => false end.

(** Calls to the display sink and to the callback. *)
Definition isDisplayOrCallback (ev : event) : bool :=
  match ev with
  | ConsoleGroupCollapsed _ _ _ _ | ConsoleInfo _ | ConsoleGroupEnd
  | CallbackCall _ _ => true
  | _ => false
  end.

(** *** The words of the known-category pattern

    [_getRegex] joins the alternatives with commas and removes the
    first comma only.  With the tags a, b, c, d the pattern is
    [...|(A)|(B),|(C),|(D)]: besides the built-in names it reads the
    first and the last tag name, and every tag name in between followed
    by a comma. *)

Fixpoint tailWords (prev : string) (rest : list string) : list string :=
  match rest with
  | [] => [prev]
  | c :: r => (prev ++ ",") :: tailWords c r
  end.

Definition tagWords (names : list string) : list string :=
  match names with
  | [] => []
  | a :: rest =>
      match rest with
      | [] => [a]
      | b :: r => a :: tailWords b r
      end
  end.

Definition patternWords (names : list string) : list string :=
  (builtIns ++ tagWords (map toUpperCase names))%list.

(** The same, as alternatives of the parsed pattern. *)
Definition withComma (name : string) : regex :=
  seqOf [RGroup (literalPattern name); RChar ","].

Fixpoint tailAlternatives (prev : string) (rest : list string) : list regex :=
  match rest with
  | [] => [alternative prev]
  | c :: r => withComma prev :: tailAlternatives c r
  end.

Definition tagAlternatives (names : list string) : list regex :=
  match names with
  | [] => []
  | a :: rest =>
      match rest with
      | [] => [alternative a]
      | b :: r => alternative a :: tailAlternatives b r
      end
  end.

(** The pattern text after the first two tags. *)
Fixpoint tailSource (rest : list string) : string :=
  match rest with
  | [] => ""
  | c :: r => "," ++ ("|(" ++ c ++ ")") ++ tailSource r
  end.

(** A pattern that reads exactly the word [w]. *)
Definition spells (r : regex) (w : string) : Prop :=
  forall s k,
    matcher r s k = if startsWith w s then k (drop (String.length w) s) else None.

(** The first word of a list that starts the input. *)
Fixpoint firstPrefix (ws : list string) (s : string) : option string :=
  match ws with
  | [] => None
  | w :: ws' => if startsWith w s then Some w else firstPrefix ws' s
  end.

(** The state after PromptingVerbosity committed the tokens [l]. *)
Definition committed (l : list string) (message : string) (st : state) : state :=
  (withDebugMode true (withVerboseMode (Some l) (fst st)),
   record [SetItem "verbose" (join "," l); Reload]
     (withStorage (Some (join "," l)) (prompted message (snd st)))).

(** The state after PromptingVerbosity alerted. *)
Definition alerted (message : string) (st : state) : state :=
  (fst st,
   record [AlertCall "Wrong Verbose Mode!"] (prompted message (snd st))).

(** A development build whose default set is a single line feed, as
    construction leaves it. *)
Definition lineFeedParams : consolerParams := mkParams "secret" [LF] None false.

Definition lineFeedState : state :=
  snd (construct Helper.isHex lineFeedParams Scenario.devHost).

Definition isPrompt (ev : event) : bool :=
  match ev with PromptCall _ => true | _ => false end.

(** A production instance with three tags, at the point where the
    operator, already authorised, answers. *)
Definition threeTagsParams : consolerParams :=
  mkParams "secret" ["INFO"]
    (Some [mkTag "net" "#0af"; mkTag "db" "#fa0"; mkTag "ui" "#0f0"]) false.

Definition threeTagsState (reply : string) : state :=
  let (i, h) := snd (construct Helper.isHex threeTagsParams Scenario.prodHost) in
  (i, withReplies [Some reply] h).

End Behaviour.

(** * Properties *)

(** ** Strings *)

Module JsStringFacts.
Import JsString.

Ltac by_ascii c := destruct c as [[] [] [] [] [] [] [] []]; try reflexivity.

Lemma toUpperCaseChar_idem (c : ascii) :
  toUpperCaseChar (toUpperCaseChar c) = toUpperCaseChar c.
Proof. by_ascii c. Qed.

Lemma toUpperCase_idem (s : string) :
  toUpperCase (toUpperCase s) = toUpperCase s.
Proof.
  induction s as [|c s IH]; simpl; [reflexivity|].
  now rewrite toUpperCaseChar_idem, IH.
Qed.

Lemma toUpperCase_app (a b : string) :
  toUpperCase (a ++ b) = toUpperCase a ++ toUpperCase b.
Proof. induction a as [|c a IH]; simpl; [reflexivity | now rewrite IH]. Qed.

Lemma truthy_toUpperCase (s : string) : truthy (toUpperCase s) = truthy s.
Proof. destruct s; reflexivity. Qed.

Lemma append_empty_r (s : string) : s ++ "" = s.
Proof. induction s as [|c s IH]; simpl; [reflexivity | now rewrite IH]. Qed.

Lemma append_assoc (a b c : string) : (a ++ b) ++ c = a ++ (b ++ c).
Proof. induction a as [|x a IH]; simpl; [reflexivity | now rewrite IH]. Qed.

Lemma chars_app (a b : string) : chars (a ++ b) = (chars a ++ chars b)%list.
Proof. induction a as [|x a IH]; simpl; [reflexivity | now rewrite IH]. Qed.

Lemma isUpperCase_spec (s : string) :
  isUpperCase s = true <-> toUpperCase s = s.
Proof.
  unfold isUpperCase.
  induction s as [|c s IH]; simpl; [tauto|].
  rewrite andb_true_iff, IH. unfold upperChar. rewrite Ascii.eqb_eq.
  split.
  - intros [-> ->]. reflexivity.
  - intros H. injection H as H1 H2. now split.
Qed.

Lemma isUpperCase_toUpperCase (s : string) :
  isUpperCase (toUpperCase s) = true.
Proof. apply isUpperCase_spec, toUpperCase_idem. Qed.

Lemma isUpperCase_app (a b : string) :
  isUpperCase (a ++ b) = isUpperCase a && isUpperCase b.
Proof. unfold isUpperCase. now rewrite chars_app, forallb_app. Qed.

Lemma isUpperCase_take (n : nat) (s : string) :
  isUpperCase s = true -> isUpperCase (take n s) = true.
Proof.
  unfold isUpperCase. revert s.
  induction n as [|n IH]; intros [|c s]; simpl; try reflexivity.
  rewrite !andb_true_iff. intros [Hc Hs]. split; [assumption | now apply IH].
Qed.

Lemma isUpperCase_join (l : list string) :
  isUpperCase (join "," l) = forallb isUpperCase l.
Proof.
  induction l as [|x l IH]; [reflexivity|].
  destruct l as [|y l]; [cbn; now rewrite andb_true_r|].
  change (join "," (x :: y :: l)) with (x ++ "," ++ join "," (y :: l)).
  rewrite !isUpperCase_app, IH. reflexivity.
Qed.

Lemma suffix_refl (s : string) : suffix s s.
Proof. now exists "". Qed.

Lemma suffix_trans (a b c : string) : suffix a b -> suffix b c -> suffix a c.
Proof.
  intros [p ->] [q ->]. exists (q ++ p). now rewrite append_assoc.
Qed.

Lemma suffix_tail (c : ascii) (s : string) : suffix s (String c s).
Proof. now exists (String c ""). Qed.

Lemma isUpperCase_suffix (t s : string) :
  suffix t s -> isUpperCase s = true -> isUpperCase t = true.
Proof.
  intros [p ->]. rewrite isUpperCase_app, andb_true_iff. tauto.
Qed.

Lemma startsWith_app (p t : string) : startsWith p (p ++ t) = true.
Proof.
  induction p as [|c p IH]; simpl; [reflexivity|].
  now rewrite Ascii.eqb_refl, IH.
Qed.

Lemma includes_startsWith (s p : string) :
  startsWith p s = true -> includes s p = true.
Proof. intros H. destruct s; simpl; now rewrite H. Qed.

Lemma includes_app (pre p post : string) :
  includes (pre ++ p ++ post) p = true.
Proof.
  induction pre as [|c pre IH].
  - change ("" ++ p ++ post) with (p ++ post).
    apply includes_startsWith, startsWith_app.
  - simpl. rewrite IH. apply orb_true_r.
Qed.

Lemma includes_occurs (s p : string) :
  includes s p = true -> exists pre post, s = pre ++ p ++ post.
Proof.
  assert (SW : forall p s, startsWith p s = true -> exists post, s = p ++ post).
  { clear. induction p as [|a p IH]; intros s H; simpl in H.
    - now exists s.
    - destruct s as [|b s]; [discriminate|].
      apply andb_true_iff in H as [Hab H]. apply Ascii.eqb_eq in Hab as ->.
      destruct (IH _ H) as [post ->]. now exists post. }
  induction s as [|c s IH]; simpl; intros H.
  - rewrite orb_false_r in H. destruct (SW _ _ H) as [post E].
    exists "", post. exact E.
  - apply orb_true_iff in H as [H|H].
    + destruct (SW _ _ H) as [post E]. exists "", post. exact E.
    + destruct (IH H) as (pre & post & ->). now exists (String c pre), post.
Qed.

(** [split] undoes [join] on tokens that hold no separator. *)
Lemma split_lacks (sep : ascii) (x : string) :
  lacks sep x = true -> split sep x = [x].
Proof.
  unfold lacks. induction x as [|c x IH]; cbn; [reflexivity|].
  rewrite andb_true_iff, negb_true_iff. intros [-> H].
  now rewrite (IH H).
Qed.

Lemma split_app (sep : ascii) (x r : string) :
  lacks sep x = true -> split sep (x ++ String sep r) = x :: split sep r.
Proof.
  unfold lacks. induction x as [|c x IH]; cbn.
  - now rewrite Ascii.eqb_refl.
  - rewrite andb_true_iff, negb_true_iff. intros [-> H].
    now rewrite (IH H).
Qed.

Lemma split_join (l : list string) :
  l <> [] -> forallb (lacks ",") l = true -> split "," (join "," l) = l.
Proof.
  induction l as [|x l IH]; [congruence|]. intros _.
  cbn [forallb]. rewrite andb_true_iff. intros [Hx Hl].
  destruct l as [|y l]; [now apply split_lacks|].
  change (join "," (x :: y :: l)) with (x ++ String "," (join "," (y :: l))).
  rewrite (split_app _ x _ Hx), IH; [reflexivity | congruence | exact Hl].
Qed.

Lemma toUpperCase_join (l : list string) :
  toUpperCase (join "," l) = join "," (map toUpperCase l).
Proof.
  induction l as [|x l IH]; [reflexivity|].
  destruct l as [|y l]; [reflexivity|].
  change (join "," (x :: y :: l)) with (x ++ String "," (join "," (y :: l))).
  rewrite toUpperCase_app. cbn [toUpperCase]. rewrite IH. reflexivity.
Qed.

Lemma lacks_comma_toUpperCase (x : string) :
  lacks "," (toUpperCase x) = lacks "," x.
Proof.
  unfold lacks. induction x as [|c x IH]; cbn; [reflexivity|].
  rewrite IH. f_equal. by_ascii c.
Qed.

Lemma replace_lacks (c : ascii) (r s : string) :
  lacks c s = true -> replace c r s = s.
Proof.
  unfold lacks. induction s as [|x s IH]; cbn; [reflexivity|].
  rewrite andb_true_iff, negb_true_iff. intros [-> H]. now rewrite (IH H).
Qed.

Lemma replace_first (c : ascii) (r x s : string) :
  lacks c x = true -> replace c r (x ++ String c s) = x ++ r ++ s.
Proof.
  unfold lacks. induction x as [|y x IH]; cbn.
  - now rewrite Ascii.eqb_refl.
  - rewrite andb_true_iff, negb_true_iff. intros [-> H]. now rewrite (IH H).
Qed.

Lemma lacks_app (c : ascii) (a b : string) :
  lacks c (a ++ b) = lacks c a && lacks c b.
Proof. unfold lacks. now rewrite chars_app, forallb_app. Qed.

End JsStringFacts.

(** ** Regular expressions *)

Module JsRegExpFacts.
Import JsString JsStringFacts JsRegExp.

Lemma isSyntaxChar_toUpperCaseChar (c : ascii) :
  isSyntaxChar (toUpperCaseChar c) = isSyntaxChar c.
Proof. by_ascii c. Qed.

Lemma isLiteral_toUpperCase (p : string) :
  isLiteral (toUpperCase p) = isLiteral p.
Proof.
  unfold isLiteral. induction p as [|c p IH]; simpl; [reflexivity|].
  now rewrite isSyntaxChar_toUpperCaseChar, IH.
Qed.

(** *** The parser reads a pattern left to right *)

Lemma psteps_app (a b : string) (st : pstate) :
  psteps (a ++ b) st =
    match psteps a st with
    | Compiled st' => psteps b st'
    | SyntaxError => SyntaxError
    | Unsupported => Unsupported
    end.
Proof.
  revert st. induction a as [|c a IH]; intros st; simpl; [reflexivity|].
  destruct (pstep c st); auto.
Qed.

Lemma pstep_literal (c : ascii) (st : pstate) :
  isSyntaxChar c = false -> pstep c st = Compiled (pushTerm (RChar c) st).
Proof.
  destruct st as [cur stack].
  destruct c as [[] [] [] [] [] [] [] []]; intros H;
    solve [reflexivity | discriminate H].
Qed.

Lemma psteps_literal (p : string) (cur : frame) (stack : list frame) :
  isLiteral p = true ->
  psteps p (cur, stack) =
    Compiled (mkFrame (alts cur) (rev (map RChar (chars p)) ++ terms cur)%list,
              stack).
Proof.
  revert cur. unfold isLiteral.
  induction p as [|c p IH]; intros cur H; cbn [psteps chars map rev].
  - now destruct cur.
  - cbn [chars forallb] in H.
    apply andb_true_iff in H as [Hc Hp]. apply negb_true_iff in Hc.
    rewrite (pstep_literal c (cur, stack) Hc). cbn [pushTerm].
    rewrite (IH _ Hp). cbn [alts terms].
    now rewrite <- app_assoc.
Qed.

Lemma parse_literal (p : string) :
  isLiteral p = true -> parse p = Compiled (literalPattern p).
Proof.
  intros H. unfold parse. rewrite (psteps_literal p emptyFrame [] H).
  unfold closeFrame, literalPattern. cbn [alts terms emptyFrame].
  now rewrite app_nil_r, rev_involutive.
Qed.

(** *** A literal pattern is a substring test *)

Lemma matcher_literal (p s : string) (k : cont) :
  matcher (literalPattern p) s k =
    if startsWith p s then k (drop (String.length p) s) else None.
Proof.
  revert s. induction p as [|a p IH]; intros s.
  - reflexivity.
  - change (literalPattern (String a p)) with (RSeq (RChar a) (literalPattern p)).
    destruct s as [|x s]; [reflexivity|]. cbn.
    rewrite (Ascii.eqb_sym a x).
    destruct (Ascii.eqb x a); [apply IH | reflexivity].
Qed.

Lemma test_literal (p s : string) :
  test (literalPattern p) s = includes s p.
Proof.
  unfold test. induction s as [|c s IH].
  - cbn [exec includes]. rewrite matcher_literal.
    destruct (startsWith p ""); reflexivity.
  - cbn [exec includes]. rewrite matcher_literal.
    destruct (startsWith p (String c s)); [reflexivity | exact IH].
Qed.

(** *** Matchers only read forward *)

Lemma orElse_some (a b : option string) (out : string) :
  orElse a b = Some out -> a = Some out \/ b = Some out.
Proof. destruct a; simpl; auto. Qed.

Lemma repeatMatcher_forward (m : string -> cont -> option string) :
  forward m -> forall fuel, forward (repeatMatcher m fuel).
Proof.
  intros Hm fuel. induction fuel as [|n IH]; intros s k out H; simpl in H.
  - exists s. split; [apply suffix_refl | exact H].
  - apply orElse_some in H as [H|H].
    + apply Hm in H as (t & Ht & H).
      destruct (String.length t <? String.length s)%nat; [|discriminate].
      apply IH in H as (u & Hu & H).
      exists u. split; [eapply suffix_trans; eassumption | exact H].
    + exists s. split; [apply suffix_refl | exact H].
Qed.

Lemma matcher_forward (r : regex) : forward (matcher r).
Proof.
  induction r as [|c| |a IHa b IHb|a IHa b IHb|a IHa|a IHa|a IHa|a IHa];
    intros s k out H; cbn [matcher] in H.
  - exists s. split; [apply suffix_refl | exact H].
  - destruct s as [|x s]; [discriminate|].
    destruct (Ascii.eqb x c); [|discriminate].
    exists s. split; [apply suffix_tail | exact H].
  - destruct s as [|x s]; [discriminate|].
    destruct (isLineTerminator x); [discriminate|].
    exists s. split; [apply suffix_tail | exact H].
  - apply IHa in H as (t & Ht & H). apply IHb in H as (u & Hu & H).
    exists u. split; [eapply suffix_trans; eassumption | exact H].
  - apply orElse_some in H as [H|H]; [apply IHa in H | apply IHb in H]; exact H.
  - exact (@repeatMatcher_forward _ IHa _ _ _ _ H).
  - apply IHa in H as (t & Ht & H).
    apply (@repeatMatcher_forward _ IHa) in H as (u & Hu & H).
    exists u. split; [eapply suffix_trans; eassumption | exact H].
  - apply orElse_some in H as [H|H].
    + apply IHa in H as (t & Ht & H).
      destruct (String.length t <? String.length s)%nat; [|discriminate].
      exists t. split; assumption.
    + exists s. split; [apply suffix_refl | exact H].
  - apply IHa in H. exact H.
Qed.

Lemma exec_forward (r : regex) (s matched rest : string) :
  exec r s = Some (matched, rest) ->
  suffix rest s /\ exists t, suffix t s /\ matched = take (String.length t - String.length rest) t.
Proof.
  induction s as [|c s IH]; cbn [exec].
  - destruct (matcher r "" Some) as [out|] eqn:E; [|discriminate].
    intros H. injection H as <- <-.
    apply matcher_forward in E as (t & Ht & E). injection E as ->.
    split; [exact Ht|]. exists "". split; [apply suffix_refl | reflexivity].
  - destruct (matcher r (String c s) Some) as [out|] eqn:E.
    + intros H. injection H as <- <-.
      apply matcher_forward in E as (t & Ht & E). injection E as ->.
      split; [exact Ht|]. exists (String c s). split; [apply suffix_refl | reflexivity].
    + intros H. apply IH in H as (Hrest & t & Ht & Hm).
      split; [eapply suffix_trans; [eassumption | apply suffix_tail]|].
      exists t. split; [eapply suffix_trans; [eassumption | apply suffix_tail] | exact Hm].
Qed.

(** Every global match of an upper-case input is upper-case. *)
Lemma matchAllFrom_upper (r : regex) (fuel : nat) (s : string) :
  isUpperCase s = true ->
  forallb isUpperCase (matchAllFrom fuel r s) = true.
Proof.
  revert s. induction fuel as [|n IH]; intros s Hs; cbn [matchAllFrom]; [reflexivity|].
  destruct (exec r s) as [[matched rest]|] eqn:E; [|reflexivity].
  apply exec_forward in E as (Hrest & t & Ht & ->).
  pose proof (@isUpperCase_suffix _ _ Hrest Hs) as Hr.
  cbn [forallb]. rewrite (@isUpperCase_take _ _ (@isUpperCase_suffix _ _ Ht Hs)).
  cbn [andb]. destruct (truthy _); [now apply IH|].
  destruct rest as [|x rest']; [reflexivity|].
  apply IH. exact (@isUpperCase_suffix _ _ (suffix_tail x rest') Hr).
Qed.

Lemma matchGlobal_upper (r : regex) (s : string) (l : list string) :
  isUpperCase s = true -> matchGlobal r s = Some l ->
  forallb isUpperCase l = true.
Proof.
  intros Hs. unfold matchGlobal.
  pose proof (matchAllFrom_upper r (S (String.length s)) _ Hs) as H.
  destruct (matchAllFrom _ r s); [discriminate|].
  intros E. injection E as <-. exact H.
Qed.

(** *** The fuel of the model never runs out

    Any fuel above the length of the input gives the same result, for
    the repetition and for the global match: the recursion of the model
    is the recursion of the program. *)

Lemma suffix_length (t s : string) :
  suffix t s -> String.length t <= String.length s.
Proof.
  intros [pre ->]. induction pre as [|c pre IH]; cbn; [lia | lia].
Qed.

Lemma repeatMatcher_extensional (m : string -> cont -> option string) :
  extensional m -> forall fuel, extensional (repeatMatcher m fuel).
Proof.
  intros Hm fuel. induction fuel as [|n IH]; intros s k1 k2 H;
    cbn [repeatMatcher].
  - apply H, suffix_refl.
  - rewrite (H s (suffix_refl s)). f_equal.
    apply Hm. intros t Ht.
    destruct (String.length t <? String.length s)%nat; [|reflexivity].
    apply IH. intros u Hu. apply H. eapply suffix_trans; eassumption.
Qed.

Lemma matcher_extensional (r : regex) : extensional (matcher r).
Proof.
  induction r as [|c| |a IHa b IHb|a IHa b IHb|a IHa|a IHa|a IHa|a IHa];
    intros s k1 k2 H; cbn [matcher].
  - apply H, suffix_refl.
  - destruct s as [|x s]; [reflexivity|].
    destruct (Ascii.eqb x c); [apply H, suffix_tail | reflexivity].
  - destruct s as [|x s]; [reflexivity|].
    destruct (isLineTerminator x); [reflexivity | apply H, suffix_tail].
  - apply IHa. intros t Ht. apply IHb. intros u Hu.
    apply H. eapply suffix_trans; eassumption.
  - now rewrite (IHa s k1 k2 H), (IHb s k1 k2 H).
  - now apply repeatMatcher_extensional.
  - apply IHa. intros t Ht. apply repeatMatcher_extensional; [exact IHa|].
    intros u Hu. apply H. eapply suffix_trans; eassumption.
  - rewrite (H s (suffix_refl s)). f_equal. apply IHa. intros t Ht.
    destruct (String.length t <? String.length s)%nat; [now apply H | reflexivity].
  - now apply IHa.
Qed.

Lemma repeatMatcher_fuel (m : string -> cont -> option string) :
  extensional m ->
  forall n n' s k,
    String.length s < n -> String.length s < n' ->
    repeatMatcher m n s k = repeatMatcher m n' s k.
Proof.
  intros Hm n. induction n as [|n IH]; intros n' s k Hn Hn'; [lia|].
  destruct n' as [|n']; [lia|]. cbn [repeatMatcher]. f_equal.
  apply Hm. intros t Ht.
  destruct (String.length t <? String.length s)%nat eqn:E; [|reflexivity].
  apply Nat.ltb_lt in E. apply IH; lia.
Qed.

Lemma take_truthy (n : nat) (s : string) : truthy (take n s) = true -> 0 < n.
Proof. destruct n; [discriminate | lia]. Qed.

Lemma matchAllFrom_fuel (r : regex) (n n' : nat) (s : string) :
  String.length s < n -> String.length s < n' ->
  matchAllFrom n r s = matchAllFrom n' r s.
Proof.
  revert n' s. induction n as [|n IH]; intros n' s Hn Hn'; [lia|].
  destruct n' as [|n']; [lia|]. cbn [matchAllFrom].
  destruct (exec r s) as [[matched rest]|] eqn:E; [|reflexivity].
  apply exec_forward in E as (Hrest & t & Ht & ->).
  apply suffix_length in Hrest, Ht. f_equal.
  destruct (truthy _) eqn:T.
  - apply take_truthy in T. apply IH; lia.
  - destruct rest as [|x rest']; [reflexivity|]. cbn in Hrest. apply IH; lia.
Qed.

(** *** The known-category pattern *)

Lemma psteps_group (n : string) (al ts : list regex) :
  isLiteral n = true ->
  psteps ("|(" ++ n ++ ")") (mkFrame al ts, []) =
    Compiled (mkFrame (seqOf (rev ts) :: al) [RGroup (literalPattern n)], []).
Proof.
  intros H.
  change ("|(" ++ n ++ ")") with (String "|" (String "(" (n ++ ")"))).
  cbn [psteps].
  change (pstep "|" (mkFrame al ts, []))
    with (Compiled (mkFrame (seqOf (rev ts) :: al) [], @nil frame)).
  cbv iota.
  change (pstep "(" (mkFrame (seqOf (rev ts) :: al) [], []))
    with (Compiled (emptyFrame, [mkFrame (seqOf (rev ts) :: al) []])).
  cbv iota.
  rewrite psteps_app, (psteps_literal n emptyFrame _ H).
  cbn [psteps alts terms emptyFrame].
  rewrite app_nil_r.
  change (pstep ")" ?st) with
    (let (cur, stack) := st in
     match stack with
     | [] => @SyntaxError pstate
     | parent :: rest =>
         Compiled (mkFrame (alts parent)
                     (RGroup (closeFrame cur) :: terms parent), rest)
     end).
  cbn [alts terms]. unfold closeFrame. cbn [alts terms rev app altOf].
  rewrite rev_involutive. reflexivity.
Qed.

Lemma parse_static :
  psteps "(INFO)|(WARN)|(SUCCESS)|(ERROR)" (emptyFrame, []) =
    Compiled (mkFrame [seqOf [RGroup (literalPattern "SUCCESS")];
                       seqOf [RGroup (literalPattern "WARN")];
                       seqOf [RGroup (literalPattern "INFO")]]
                [RGroup (literalPattern "ERROR")], []).
Proof. reflexivity. Qed.

(** *** Two patterns that are not substring tests *)

Lemma parse_empty_group :
  parse "()" = Compiled (RSeq (RGroup REmpty) REmpty).
Proof. reflexivity. Qed.

Lemma test_empty_group (s : string) :
  test (RSeq (RGroup REmpty) REmpty) s = true.
Proof. destruct s; reflexivity. Qed.

Lemma parse_dot : parse "." = Compiled (RSeq RDot REmpty).
Proof. reflexivity. Qed.

Lemma isLineTerminator_toUpperCaseChar (c : ascii) :
  isLineTerminator (toUpperCaseChar c) = isLineTerminator c.
Proof. by_ascii c. Qed.

Lemma test_dot (s : string) :
  test (RSeq RDot REmpty) s
  = existsb (fun c => negb (isLineTerminator c)) (chars s).
Proof.
  unfold test. induction s as [|c s IH]; [reflexivity|].
  cbn [exec matcher chars existsb].
  destruct (isLineTerminator c); [exact IH | reflexivity].
Qed.

Lemma existsb_toUpperCase (s : string) :
  existsb (fun c => negb (isLineTerminator c)) (chars (toUpperCase s))
  = existsb (fun c => negb (isLineTerminator c)) (chars s).
Proof.
  induction s as [|c s IH]; [reflexivity|].
  cbn [toUpperCase chars existsb].
  now rewrite isLineTerminator_toUpperCaseChar, IH.
Qed.

End JsRegExpFacts.

(** ** The facade *)

Module ConsolerFacts.
Import JsStringFacts JsRegExpFacts Consoler Spec.
Local Open Scope consoler_scope.

(** *** Running the methods *)

Lemma record_record (es es' : list event) (h : host) :
  record es' (record es h) = record (es ++ es') h.
Proof. destruct h. unfold record. cbn. now rewrite app_assoc. Qed.

Lemma record_nil (h : host) : record [] h = h.
Proof. destruct h. unfold record. cbn. now rewrite app_nil_r. Qed.

Lemma emitted_record (i i' : instance) (h : host) (es : list event) :
  emitted (i, h) (i', record es h) = es.
Proof.
  unfold emitted. destruct h as [sto env rep win tr]. cbn.
  induction tr as [|x tr IH]; [reflexivity | exact IH].
Qed.

Lemma getLocalVerbose_run (i : instance) (h : host) :
  _getLocalVerbose (i, h) = (Return (option_map toUpperCase (persisted h)), (i, h)).
Proof.
  unfold _getLocalVerbose, persisted, bind, getItem. cbn.
  destruct (storage h) as [v|]; [|reflexivity].
  destruct (truthy v); reflexivity.
Qed.

Lemma searchInLocalVerbose_run (q : string) (i : instance) (h : host) :
  _searchInLocalVerbose q (i, h) =
    match persisted h with
    | Some v =>
        match parse (toUpperCase q) with
        | Compiled r => (Return (test r (toUpperCase v)), (i, h))
        | SyntaxError => (Throw (RegExpSyntaxError (toUpperCase q)), (i, h))
        | Unsupported => (OutsideModel, (i, h))
        end
    | None => (Return false, (i, h))
    end.
Proof.
  unfold _searchInLocalVerbose, bind. rewrite getLocalVerbose_run.
  destruct (persisted h) as [v|]; [|reflexivity]. cbn.
  unfold newRegExp. destruct (parse (toUpperCase q)); reflexivity.
Qed.

(** The gate reads; it never writes. *)
Lemma searchInLocalVerbose_pure (q : string) (st : state) :
  snd (_searchInLocalVerbose q st) = st.
Proof.
  destruct st as [i h]. rewrite searchInLocalVerbose_run.
  destruct (persisted h); [|reflexivity].
  destruct (parse (toUpperCase q)); reflexivity.
Qed.

Lemma searchInLocalVerbose_upper (q : string) (st : state) :
  _searchInLocalVerbose (toUpperCase q) st = _searchInLocalVerbose q st.
Proof.
  destruct st as [i h]. rewrite !searchInLocalVerbose_run.
  now rewrite toUpperCase_idem.
Qed.

(** On a literal query the gate is the substring test. *)
Lemma searchInLocalVerbose_literal (q : string) (i : instance) (h : host) :
  isLiteral q = true ->
  _searchInLocalVerbose q (i, h) =
    (Return match persisted h with
            | Some v => includes (toUpperCase v) (toUpperCase q)
            | None => false
            end, (i, h)).
Proof.
  intros H. rewrite searchInLocalVerbose_run.
  destruct (persisted h) as [v|]; [|reflexivity].
  rewrite parse_literal by now rewrite isLiteral_toUpperCase.
  now rewrite test_literal.
Qed.

Lemma log_run (c label : string) (m : value) (rest : list value)
  (i : instance) (h : host) :
  _log c label m rest (i, h) =
    (Return tt,
     (i, if isDebugModeEnable i
         then record [ConsoleGroupCollapsed (fst (_getStylesOption label c))
                        (snd (_getStylesOption label c)) m rest;
                      ConsoleInfo _getErrorTrace; ConsoleGroupEnd] h
         else h)).
Proof.
  unfold _log, bind, this, when, emit, modifyHost, ret. cbn.
  destruct (isDebugModeEnable i) eqn:E; cbn; rewrite ?E; cbn; rewrite ?E; cbn;
    [|reflexivity].
  now rewrite !record_record.
Qed.

Lemma callCallback_run (c : string) (m : value) (i : instance) (h : host) :
  callCallback c m (i, h) =
    (Return tt,
     (i, record (if callbackFunction i then [CallbackCall c m] else []) h)).
Proof.
  unfold callCallback, bind, this, when, emit, modifyHost, ret. cbn.
  destruct (callbackFunction i); [reflexivity | now rewrite record_nil].
Qed.

(** Every entry of the dispatch surface is the same gated sequence. *)
Lemma dispatch_run (e : entry) (m : value) (rest : list value)
  (i : instance) (h : host) :
  dispatch e m rest (i, h) =
    match _searchInLocalVerbose (category e) (i, h) with
    | (Return true, _) =>
        (Return tt,
         (i, record (if callbackFunction i
                     then [CallbackCall (toUpperCase (category e)) m] else [])
               (if isDebugModeEnable i then record (groupOf e m rest) h else h)))
    | (Return false, _) => (Return tt, (i, h))
    | (Throw x, _) => (Throw x, (i, h))
    | (OutsideModel, _) => (OutsideModel, (i, h))
    end.
Proof.
  assert (G : forall q c label cb,
    (tag <- _searchInLocalVerbose q ;;
     when tag (_log c label m rest) ;;
     when tag (callCallback cb m)) (i, h) =
    match _searchInLocalVerbose q (i, h) with
    | (Return true, _) =>
        (Return tt,
         (i, record (if callbackFunction i then [CallbackCall cb m] else [])
               (if isDebugModeEnable i
                then record [ConsoleGroupCollapsed
                               (fst (_getStylesOption label c))
                               (snd (_getStylesOption label c)) m rest;
                             ConsoleInfo _getErrorTrace; ConsoleGroupEnd] h
                else h)))
    | (Return false, _) => (Return tt, (i, h))
    | (Throw x, _) => (Throw x, (i, h))
    | (OutsideModel, _) => (OutsideModel, (i, h))
    end).
  { intros q c label cb.
    pose proof (searchInLocalVerbose_pure q (i, h)) as P.
    unfold bind at 1.
    destruct (_searchInLocalVerbose q (i, h)) as [[[]| |] st'];
      cbn in P; subst st'; try reflexivity.
    unfold when, bind. rewrite log_run, callCallback_run. reflexivity. }
  destruct e as [| | | |f]; cbn [dispatch category];
    try (unfold log, warn, error, success; rewrite G; reflexivity).
  unfold _taglog. rewrite G, searchInLocalVerbose_upper. reflexivity.
Qed.

(** *** The gate *)

(** C2. If the gating check on a category is false when it is
    dispatched, the dispatch does nothing at all: no display call, no
    callback call, the whole state is as before. *)
Theorem gated_dispatch_no_effect (e : entry) (m : value) (rest : list value)
  (st : state) :
  contains (category e) st = Return false ->
  dispatch e m rest st = (Return tt, st).
Proof.
  destruct st as [i h]. unfold contains. intros H.
  rewrite dispatch_run.
  destruct (_searchInLocalVerbose (category e) (i, h)) as [o st'].
  cbn in H. subst o. reflexivity.
Qed.

Lemma gated_dispatch_no_effect_witness :
  dispatch Log (VString "hello") [VRef 0] Scenario.warnState
  = (Return tt, Scenario.warnState).
Proof. apply gated_dispatch_no_effect. reflexivity. Defined.

(** C4. With "ERROR" persisted, the membership check on "ROR" answers
    true although "ROR" is none of the stored tokens: membership is a
    case-insensitive substring match on the stored string.  It ignores
    the case of the query and of the stored value ("rOr" in "Error"), it
    reads across the commas ("n,e" in "WARN,ERROR"), and it answers false
    for what does not occur in the stored string ("ORE" and "ERRORS" in
    "ERROR", "ROR" in "WARN,INFO"). *)
Theorem contains_ROR_in_ERROR (i : instance) (h : host) :
  _searchInLocalVerbose "ROR" (i, withStorage (Some "ERROR") h)
  = (Return true, (i, withStorage (Some "ERROR") h))
  /\ _searchInLocalVerbose "ror" (i, withStorage (Some "error") h)
    = (Return true, (i, withStorage (Some "error") h))
  /\ ~ In "ROR" (split "," (toUpperCase "ERROR"))
  /\ _searchInLocalVerbose "rOr" (i, withStorage (Some "Error") h)
    = (Return true, (i, withStorage (Some "Error") h))
  /\ _searchInLocalVerbose "ROR" (i, withStorage (Some "error") h)
    = (Return true, (i, withStorage (Some "error") h))
  /\ _searchInLocalVerbose "n,e" (i, withStorage (Some "WARN,ERROR") h)
    = (Return true, (i, withStorage (Some "WARN,ERROR") h))
  /\ _searchInLocalVerbose "ORE" (i, withStorage (Some "ERROR") h)
    = (Return false, (i, withStorage (Some "ERROR") h))
  /\ _searchInLocalVerbose "ERRORS" (i, withStorage (Some "ERROR") h)
    = (Return false, (i, withStorage (Some "ERROR") h))
  /\ _searchInLocalVerbose "ROR" (i, withStorage (Some "WARN,INFO") h)
    = (Return false, (i, withStorage (Some "WARN,INFO") h)).
Proof.
  assert (G : forall q v, isLiteral q = true -> truthy v = true ->
            _searchInLocalVerbose q (i, withStorage (Some v) h)
            = (Return (includes (toUpperCase v) (toUpperCase q)),
               (i, withStorage (Some v) h))).
  { intros q v Hq Hv. rewrite searchInLocalVerbose_literal by exact Hq.
    unfold persisted. destruct h; cbn. now rewrite Hv. }
  repeat split; try (rewrite G by reflexivity; reflexivity).
  cbn. intros [H|[]]. discriminate H.
Qed.

(** C10, as the code has it.  The membership check compiles the
    upper-cased query as a pattern and runs it on the upper-cased stored
    string; it is not a literal substring test.  On ASCII text: the query
    "()" is accepted whatever non-empty value is persisted; the query "."
    is accepted exactly when the value holds a character other than a
    line feed or a carriage return; neither occurs literally in a value
    such as "ERROR"; and "a.c" is accepted on "abc", in which it does not
    occur, and refused on "ac". *)
Theorem contains_is_pattern_match (i : instance) (h : host) (q v : string)
  (r : regex) :
  persisted h = Some v ->
  isAscii v = true ->
  isAscii q = true ->
  parse (toUpperCase q) = Compiled r ->
  _searchInLocalVerbose q (i, h) = (Return (test r (toUpperCase v)), (i, h))
  /\ contains "()" (i, h) = Return true
  /\ contains "." (i, h)
     = Return (existsb (fun c => negb (isLineTerminator c)) (chars v))
  /\ includes (toUpperCase "ERROR") (toUpperCase "()") = false
  /\ includes (toUpperCase "ERROR") (toUpperCase ".") = false
  /\ _searchInLocalVerbose "a.c" (i, withStorage (Some "abc") h)
     = (Return true, (i, withStorage (Some "abc") h))
  /\ includes (toUpperCase "abc") (toUpperCase "a.c") = false
  /\ _searchInLocalVerbose "a.c" (i, withStorage (Some "ac") h)
     = (Return false, (i, withStorage (Some "ac") h)).
Proof.
  intros H _ _ Hq. unfold contains. rewrite !searchInLocalVerbose_run, H, Hq.
  assert (P : forall w, truthy w = true ->
                persisted (withStorage (Some w) h) = Some w).
  { intros w Hw. unfold persisted. destruct h; cbn. now rewrite Hw. }
  rewrite !P by reflexivity.
  repeat split.
  - change (toUpperCase "()") with "()". rewrite parse_empty_group.
    now rewrite test_empty_group.
  - change (toUpperCase ".") with ".". rewrite parse_dot.
    now rewrite test_dot, existsb_toUpperCase.
Qed.

Lemma contains_is_pattern_match_witness :
  _searchInLocalVerbose "wa.n" (blank, withStorage (Some "warn") Scenario.prodHost)
  = (Return true, (blank, withStorage (Some "warn") Scenario.prodHost))
  /\ contains "." (blank, withStorage (Some "warn") Scenario.prodHost)
     = Return true.
Proof.
  destruct (@contains_is_pattern_match blank
              (withStorage (Some "warn") Scenario.prodHost)
              "wa.n" "warn"
              (RSeq (RChar "W") (RSeq (RChar "A")
                 (RSeq RDot (RSeq (RChar "N") REmpty))))
              eq_refl eq_refl eq_refl eq_refl) as (H1 & _ & H3 & _).
  split; [exact H1 | exact H3].
Defined.

(** C10 as stated fails on its own example.  After a development
    build whose [defaultDeveloperMode] is a single line feed has
    auto-seeded the storage, a non-empty value is persisted, "." does not
    occur in it, and the membership check on "." answers false: the dot of
    a pattern accepts no line terminator. *)
Lemma dot_refuses_line_feed :
  persisted (snd Behaviour.lineFeedState) = Some LF
  /\ truthy LF = true
  /\ includes (toUpperCase LF) (toUpperCase ".") = false
  /\ _searchInLocalVerbose "." Behaviour.lineFeedState
     = (Return false, Behaviour.lineFeedState)
  /\ ~ (forall (i : instance) (h : host) (v : string),
          persisted h = Some v -> contains "." (i, h) = Return true).
Proof.
  repeat split.
  intros H.
  specialize (H (fst Behaviour.lineFeedState) (snd Behaviour.lineFeedState)
                LF eq_refl).
  discriminate H.
Qed.

(** *** Accepted dispatches *)

(** C1, as the code has it.  For an ASCII category free of pattern
    syntax that is present (as a substring, case-insensitively) in the
    non-empty, ASCII persisted value, on an instance whose debug flag is
    set, a dispatch emits exactly one collapsed group and, with a callback
    configured, calls it exactly once on (upper-case category, message). *)
Theorem accepted_dispatch_emits_once (e : entry) (m : value)
  (rest : list value) (i : instance) (h : host) :
  isAscii (category e) = true ->
  asciiStored h = true ->
  presentIn (category e) h ->
  isLiteral (category e) = true ->
  isDebugModeEnable i = true ->
  dispatch e m rest (i, h)
  = (Return tt, (i, record (groupOf e m rest ++ callbackOf i e m) h))
  /\ emitsOnce e m (i, h) (snd (dispatch e m rest (i, h))).
Proof.
  intros _ _ (v & Hv & Hin) Hlit Hflag.
  assert (E : dispatch e m rest (i, h)
              = (Return tt, (i, record (groupOf e m rest ++ callbackOf i e m) h))).
  { rewrite dispatch_run, searchInLocalVerbose_literal by exact Hlit.
    rewrite Hv, Hin, Hflag, record_record. reflexivity. }
  split; [exact E|]. rewrite E. unfold emitsOnce. cbn [snd fst].
  rewrite emitted_record. unfold callbackOf.
  destruct (callbackFunction i); split; try reflexivity; discriminate.
Qed.

Lemma accepted_dispatch_emits_once_witness :
  dispatch (Tag (mkTagFunction "#0af" "net")) (VString "disk almost full")
    [VRef 7]
    (fst Scenario.warnState, withStorage (Some "warn,Net") (snd Scenario.warnState))
  = (Return tt,
     (fst Scenario.warnState,
      record [ConsoleGroupCollapsed "%c[consoler:net]"
                "color: white; background: #0af; padding:1px 3px; border-radius:2px"
                (VString "disk almost full") [VRef 7];
              ConsoleInfo (VError "Trace"); ConsoleGroupEnd;
              CallbackCall "NET" (VString "disk almost full")]
        (withStorage (Some "warn,Net") (snd Scenario.warnState)))).
Proof.
  refine (proj1 (accepted_dispatch_emits_once
                   (Tag (mkTagFunction "#0af" "net")) (VString "disk almost full")
                   [VRef 7] (fst Scenario.warnState)
                   (h := withStorage (Some "warn,Net") (snd Scenario.warnState))
                   eq_refl eq_refl _ eq_refl eq_refl)).
  exists "warn,Net". split; reflexivity.
Defined.

(** C1 as stated fails in two ways.  A tag named "c++", persisted as
    such by the auto-seed, is present in the persisted value, yet its
    dispatch raises a pattern syntax error and emits nothing.  And an
    instance built before anything was persisted keeps its debug flag
    cleared: once "INFO" is stored by another writer, [log] calls the
    callback but opens no group. *)
Lemma present_category_not_emitted :
  (presentIn (category Scenario.cppEntry) (snd Scenario.cppState)
   /\ dispatch Scenario.cppEntry (VString "built") [] Scenario.cppState
      = (Throw (RegExpSyntaxError "C++"), Scenario.cppState)
   /\ ~ emitsOnce Scenario.cppEntry (VString "built") Scenario.cppState
         (snd (dispatch Scenario.cppEntry (VString "built") []
                 Scenario.cppState)))
  /\ (presentIn (category Log) (snd Scenario.lateState)
      /\ emitted Scenario.lateState
           (snd (dispatch Log (VString "built") [] Scenario.lateState))
         = [CallbackCall "INFO" (VString "built")]
      /\ ~ emitsOnce Log (VString "built") Scenario.lateState
            (snd (dispatch Log (VString "built") [] Scenario.lateState))).
Proof.
  split.
  - split; [exists "c++"; split; reflexivity|].
    split; [reflexivity | intros [H _]; discriminate H].
  - split; [exists "INFO"; split; reflexivity|].
    split; [reflexivity | intros [H _]; discriminate H].
Qed.


Lemma autorizeDeveloper_run (i : instance) (h : host) :
  _autorizeDeveloper (i, h) =
    if isDevelopment i then (Return true, (i, h))
    else (Return match nextReply h with
                 | Some p => String.eqb p (password i)
                 | None => false
                 end,
          (i, record [ConsoleLog [valueOfReply (nextReply h)]]
                (prompted "Enter Your Development Password? " h))).
Proof.
  unfold _autorizeDeveloper, bind, this. cbn.
  destruct (isDevelopment i); [reflexivity|].
  unfold prompt, nextReply, prompted. destruct h as [sto env rep win tr].
  destruct rep as [|r rep]; reflexivity.
Qed.

(** C7. In a development environment [authorize] answers true and
    prompts for nothing.  Otherwise it prompts exactly once, logs what
    was entered, and answers true exactly when the entry is the
    configured password; a wrong or dismissed entry answers false, with
    no second prompt. *)
Theorem authorize_once (i : instance) (h : host) :
  _autorizeDeveloper (i, h) =
    (if isDevelopment i then (Return true, (i, h))
     else (Return match nextReply h with
                  | Some p => String.eqb p (password i)
                  | None => false
                  end,
           (i, record [ConsoleLog [valueOfReply (nextReply h)]]
                 (prompted "Enter Your Development Password? " h))))
  /\ (match nextReply h with
      | Some p => String.eqb p (password i)
      | None => false
      end = true <-> nextReply h = Some (password i)).
Proof.
  split; [apply autorizeDeveloper_run|].
  destruct (nextReply h) as [p|]; [|split; discriminate].
  rewrite String.eqb_eq. split; [now intros -> | now intros [= ->]].
Qed.

(** *** The store *)

Lemma setLocalVerbose_run (i : instance) (h : host) (l : list string) :
  verboseMode i = Some l ->
  _setLocalVerbose (i, h) =
    (Return tt,
     (withDebugMode true i,
      record [SetItem "verbose" (join "," l)]
        (withStorage (Some (join "," l)) h))).
Proof.
  intros H. unfold _setLocalVerbose, bind, this. cbn. rewrite H. reflexivity.
Qed.

(** Writing a set of comma-free tokens and reading it back gives the
    same tokens, in upper case. *)
Lemma set_get_round_trip (i : instance) (h : host) (l : list string) :
  l <> [] -> forallb (lacks ",") l = true -> truthy (join "," l) = true ->
  exists v, (_setLocalVerbose ;; _getLocalVerbose)
              (withVerboseMode (Some l) i, h)
            = (Return (Some v),
               (withDebugMode true (withVerboseMode (Some l) i),
                record [SetItem "verbose" (join "," l)]
                  (withStorage (Some (join "," l)) h)))
            /\ split "," v = map toUpperCase l.
Proof.
  intros Hne Hl Ht. exists (toUpperCase (join "," l)). split.
  - unfold bind. rewrite (setLocalVerbose_run _ h (l := l)) by reflexivity.
    rewrite getLocalVerbose_run. unfold persisted.
    destruct h; cbn. now rewrite Ht.
  - rewrite toUpperCase_join. apply split_join.
    + destruct l; [congruence | discriminate].
    + clear Hne Ht. induction l as [|x l IH]; [reflexivity|].
      cbn [map forallb] in *. apply andb_true_iff in Hl as [Hx Hl].
      now rewrite lacks_comma_toUpperCase, Hx, IH.
Qed.

(** C9. [set(["WARN","ERROR"])] followed by [get()] yields a string
    that, upper-cased and split on ",", is ["WARN","ERROR"]. *)
Theorem set_get_WARN_ERROR (i : instance) (h : host) :
  exists v,
    fst ((_setLocalVerbose ;; _getLocalVerbose)
           (withVerboseMode (Some ["WARN"; "ERROR"]) i, h))
    = Return (Some v)
    /\ split "," (toUpperCase v) = ["WARN"; "ERROR"].
Proof.
  exists "WARN,ERROR". split; [|reflexivity].
  unfold bind.
  rewrite (setLocalVerbose_run _ h (l := ["WARN"; "ERROR"])) by reflexivity.
  rewrite getLocalVerbose_run. reflexivity.
Qed.

(** *** Construction *)

Lemma success_announces (i : instance) (h : host) (v : string) :
  persisted h = Some v -> isDebugModeEnable i = true ->
  success (VString "Now you can see : (")
    [VString (arrayToString (split "," (toUpperCase v))); VString ") logs."]
    (i, h)
  = (Return tt, (i, record (announcement (callbackFunction i) v) h)).
Proof.
  intros Hv Hflag.
  change (success ?m ?r) with (dispatch Success m r).
  rewrite dispatch_run, searchInLocalVerbose_literal by reflexivity.
  rewrite Hv, Hflag. unfold announcement.
  change (toUpperCase (category Success)) with "SUCCESS".
  destruct (includes (toUpperCase v) "SUCCESS").
  - now rewrite record_record.
  - now rewrite record_nil.
Qed.

Ltac evaluate :=
  cbn -[success join split toUpperCase announcement String.eqb truthy].

(** The state in which the constructor reaches the tags. *)
Lemma initialise_run (p : consolerParams) (h : host) :
  let dev := String.eqb (nodeEnv h) "development" in
  let hook := onMessageCallback p in
  let h1 := record [ConsoleLog [VString "verbose now accessable!"]]
              (withWindowVerbose true h) in
  let inst vm flag :=
    mkInstance (paramPassword p) hook vm dev flag None in
  initialise p (blank, h) =
    match persisted h with
    | Some v =>
        (Return tt,
         (inst (Some (split "," (toUpperCase v))) true,
          record (announcement hook v) h1))
    | None =>
        if dev then
          let j := join "," (defaultDeveloperMode p) in
          let h2 := record [SetItem "verbose" j] (withStorage (Some j) h1) in
          if truthy j
          then (Return tt,
                (inst (Some (split "," (toUpperCase j))) true,
                 record (announcement hook j) h2))
          else (Throw TypeError, (inst None true, h2))
        else (Return tt, (inst (Some (defaultDeveloperMode p)) false, h1))
    end.
Proof.
  intros dev hook h1 inst. subst dev hook h1 inst.
  assert (A : forall i h v, persisted h = Some v ->
              isDebugModeEnable i = true ->
              success (VString "Now you can see : (")
                [VString (arrayToString (split "," (toUpperCase v)));
                 VString ") logs."] (i, h)
              = (Return tt, (i, record (announcement (callbackFunction i) v) h)))
    by exact success_announces.
  destruct h as [sto env rep win tr].
  unfold persisted. cbn [storage nodeEnv].
  unfold initialise, fieldInitializers, _setDefaultOptions,
    _addDefaultValue, _setLocalVerbose, setItem, _getLocalVerbose, getItem,
    bind, theHost, modifyThis, modifyHost, emit, this, ret, throw.
  destruct sto as [v|]; [destruct (truthy v) eqn:T|];
    repeat (rewrite ?T; evaluate).
  - apply A; [unfold persisted; cbn; now rewrite T | reflexivity].
  - destruct (env =? "development"); evaluate; [|reflexivity].
    destruct (truthy (join "," (defaultDeveloperMode p))) eqn:J;
      repeat (rewrite ?J; evaluate); [|reflexivity].
    apply A; [unfold persisted; cbn; now rewrite J | reflexivity].
  - destruct (env =? "development"); evaluate; [|reflexivity].
    destruct (truthy (join "," (defaultDeveloperMode p))) eqn:J;
      repeat (rewrite ?J; evaluate); [|reflexivity].
    apply A; [unfold persisted; cbn; now rewrite J | reflexivity].
Qed.

Lemma tagsFunctions_run (isHex : string -> bool) (l : list verboseTag)
  (st : state) :
  tagsFunctions isHex l st =
    if forallb (fun t => isHex (color t)) l
    then (Return (map (fun t => (displayName t,
                                 mkTagFunction (color t) (displayName t))) l),
          st)
    else (Throw notHex, st).
Proof.
  induction l as [|t l IH]; [reflexivity|].
  cbn [tagsFunctions forallb map].
  destruct (isHex (color t)); [|reflexivity].
  unfold bind. rewrite IH. cbn [andb].
  destruct (forallb _ l); reflexivity.
Qed.

Lemma registerTags_run (isHex : string -> bool)
  (l : option (list verboseTag)) (i : instance) (h : host) :
  registerTags isHex l (i, h) =
    match l with
    | Some l =>
        if forallb (fun t => isHex (color t)) l
        then (Return tt,
              (withTags
                 (fold_left (fun a v => JsObject.set (fst v) (snd v) a)
                    (map (fun t => (displayName t,
                                    mkTagFunction (color t) (displayName t))) l)
                    []) i, h))
        else (Throw notHex, (i, h))
    | None => (Return tt, (i, h))
    end.
Proof.
  destruct l as [l|]; [|reflexivity].
  unfold registerTags, _getTagsObject, bind. rewrite tagsFunctions_run.
  destruct (forallb _ l); reflexivity.
Qed.

Lemma forallb_existsb_negb (A : Type) (f : A -> bool) (l : list A) :
  existsb (fun x => negb (f x)) l = true -> forallb f l = false.
Proof.
  induction l as [|x l IH]; cbn; [discriminate|].
  destruct (f x); cbn; [exact IH | reflexivity].
Qed.

Lemma construct_run (isHex : string -> bool) (p : consolerParams) (h : host) :
  construct isHex p h =
    match initialise p (blank, h) with
    | (Return _, st) => registerTags isHex (paramTags p) st
    | (Throw e, st) => (Throw e, st)
    | (OutsideModel, st) => (OutsideModel, st)
    end.
Proof. reflexivity. Qed.

(** C6. If some tag of the list has a colour that fails the hex
    validation, construction raises an error, the instance holds no tag
    mapping, and no tag function can be called on it. *)
Theorem invalid_tag_color_fails_construction (isHex : string -> bool)
  (p : consolerParams) (h : host) (l : list verboseTag) :
  paramTags p = Some l ->
  existsb (fun t => negb (isHex (color t))) l = true ->
  exists e st,
    construct isHex p h = (Throw e, st)
    /\ (e = notHex \/ e = TypeError)
    /\ tags (fst st) = None
    /\ forall name m rest, callTag name m rest st = (Throw TypeError, st).
Proof.
  intros Hl Hbad. apply forallb_existsb_negb in Hbad.
  rewrite construct_run, Hl.
  pose proof (initialise_run p h) as R. cbv zeta in R. rewrite R. clear R.
  assert (T : forall i h0, tags i = None ->
            forall name m rest, callTag name m rest (i, h0) = (Throw TypeError, (i, h0))).
  { intros i h0 Hi name m rest. unfold callTag, bind, this. cbn. now rewrite Hi. }
  destruct (persisted h) as [v|];
    [|destruct (nodeEnv h =? "development");
      [destruct (truthy (join "," (defaultDeveloperMode p)))|]];
    rewrite ?registerTags_run, ?Hbad;
    eexists; eexists; (split; [reflexivity|]);
    (split; [auto|]); (split; [reflexivity | apply T; reflexivity]).
Qed.

Lemma invalid_tag_color_fails_construction_witness :
  exists e st,
    construct Helper.isHex
      (mkParams "secret" ["INFO"]
         (Some [mkTag "net" "#0af"; mkTag "db" "not-a-color"]) true)
      Scenario.devHost = (Throw e, st)
    /\ (e = notHex \/ e = TypeError)
    /\ tags (fst st) = None
    /\ forall name m rest, callTag name m rest st = (Throw TypeError, st).
Proof.
  apply (invalid_tag_color_fails_construction Helper.isHex _ Scenario.devHost
           (l := [mkTag "net" "#0af"; mkTag "db" "not-a-color"])).
  - reflexivity.
  - reflexivity.
Defined.

Lemma emitted_app (st st' : state) (es : list event) :
  trace (snd st') = (trace (snd st) ++ es)%list -> emitted st st' = es.
Proof.
  unfold emitted. intros ->.
  induction (trace (snd st)) as [|x tr IH]; [reflexivity | exact IH].
Qed.

Lemma announcement_quiet (hook : bool) (v : string) :
  filter isWrite (announcement hook v) = []
  /\ filter isInteraction (announcement hook v) = [].
Proof.
  unfold announcement.
  destruct (includes (toUpperCase v) "SUCCESS"); [|split; reflexivity].
  destruct hook; split; reflexivity.
Qed.

(** What construction does to the host, tags or no tags, error or not. *)
Lemma construct_host (isHex : string -> bool) (p : consolerParams) (h : host) :
  let j := join "," (defaultDeveloperMode p) in
  let h' := snd (snd (construct isHex p h)) in
  replies h' = replies h
  /\ filter isInteraction (emitted (blank, h) (snd (construct isHex p h))) = []
  /\ (if autoSeeds h
      then storage h' = Some j
           /\ filter isWrite (emitted (blank, h) (snd (construct isHex p h)))
              = [SetItem "verbose" j]
      else storage h' = storage h
           /\ filter isWrite (emitted (blank, h) (snd (construct isHex p h)))
              = []).
Proof.
  intros j h'. subst h'.
  assert (T : forall st, snd (snd (registerTags isHex (paramTags p) st)) = snd st).
  { intros [i h0]. rewrite registerTags_run.
    destruct (paramTags p) as [l|]; [|reflexivity].
    destruct (forallb _ l); reflexivity. }
  assert (K : exists es,
    trace (snd (snd (construct isHex p h))) = (trace h ++ es)%list
    /\ replies (snd (snd (construct isHex p h))) = replies h
    /\ filter isInteraction es = []
    /\ (if autoSeeds h
        then storage (snd (snd (construct isHex p h))) = Some j
             /\ filter isWrite es = [SetItem "verbose" j]
        else storage (snd (snd (construct isHex p h))) = storage h
             /\ filter isWrite es = [])).
  { rewrite construct_run.
    pose proof (initialise_run p h) as R. cbv zeta in R. rewrite R. clear R.
    unfold autoSeeds. fold j.
    destruct (announcement_quiet (onMessageCallback p) j) as [Wj Ij].
    destruct (persisted h) as [v|] eqn:P.
    - destruct (announcement_quiet (onMessageCallback p) v) as [Wv Iv].
      rewrite andb_false_r, T.
      exists (ConsoleLog [VString "verbose now accessable!"]
                :: announcement (onMessageCallback p) v).
      destruct h; cbn. rewrite <- app_assoc, Wv, Iv. repeat split.
    - destruct (nodeEnv h =? "development"); cbn [andb].
      + destruct (truthy j).
        * rewrite T.
          exists (ConsoleLog [VString "verbose now accessable!"]
                    :: SetItem "verbose" j
                    :: announcement (onMessageCallback p) j).
          destruct h; cbn. rewrite <- !app_assoc, Wj, Ij. repeat split.
        * exists [ConsoleLog [VString "verbose now accessable!"];
                  SetItem "verbose" j].
          destruct h; cbn. rewrite <- !app_assoc. repeat split.
      + rewrite T.
        exists [ConsoleLog [VString "verbose now accessable!"]].
        destruct h; cbn. repeat split. }
  destruct K as (es & Htr & Hrep & Hint & Hsto).
  rewrite (emitted_app (blank, h) _ es Htr).
  split; [exact Hrep|]. split; [exact Hint|]. exact Hsto.
Qed.

(** After construction the debug flag is set whenever a value is
    persisted. *)
Lemma construct_sets_flag (isHex : string -> bool) (p : consolerParams)
  (h : host) (v : string) :
  persisted (snd (snd (construct isHex p h))) = Some v ->
  isDebugModeEnable (fst (snd (construct isHex p h))) = true.
Proof.
  rewrite construct_run.
  pose proof (initialise_run p h) as R. cbv zeta in R. rewrite R. clear R.
  assert (T : forall i h0,
            snd (snd (registerTags isHex (paramTags p) (i, h0))) = h0
            /\ isDebugModeEnable (fst (snd (registerTags isHex (paramTags p) (i, h0))))
               = isDebugModeEnable i).
  { intros i h0. rewrite registerTags_run.
    destruct (paramTags p) as [l|]; [|now split].
    destruct (forallb _ l); now split. }
  assert (W : forall es b h0,
            persisted (record es (withWindowVerbose b h0)) = persisted h0)
    by (intros es b h0; destruct h0; reflexivity).
  destruct (persisted h) as [u|] eqn:P.
  - intros _. now rewrite (proj2 (T _ _)).
  - destruct (nodeEnv h =? "development").
    + destruct (truthy (join "," (defaultDeveloperMode p))).
      * intros _. now rewrite (proj2 (T _ _)).
      * reflexivity.
    + rewrite (proj1 (T _ _)), W, P. discriminate.
Qed.

(** C8. In a development environment with nothing persisted, construction
    writes the comma-joined [defaultDeveloperMode] to the storage and
    prompts for nothing; with a persisted set, or outside a development
    environment, construction writes nothing.  (An entry holding the
    empty string counts as nothing persisted.) *)
Theorem construction_auto_seeds (isHex : string -> bool)
  (p : consolerParams) (h : host) :
  let after := snd (construct isHex p h) in
  (nodeEnv h = "development" -> persisted h = None ->
     storage (snd after) = Some (join "," (defaultDeveloperMode p))
     /\ filter isWrite (emitted (blank, h) after)
        = [SetItem "verbose" (join "," (defaultDeveloperMode p))]
     /\ filter isInteraction (emitted (blank, h) after) = []
     /\ replies (snd after) = replies h)
  /\ (nodeEnv h <> "development" \/ persisted h <> None ->
      storage (snd after) = storage h
      /\ filter isWrite (emitted (blank, h) after) = []).
Proof.
  intros after. subst after.
  destruct (construct_host isHex p h) as (Hrep & Hint & Hsto).
  unfold autoSeeds in Hsto. split.
  - intros Hdev Hnone. rewrite Hdev, Hnone in Hsto. cbn in Hsto.
    destruct Hsto as [Hs Hw]. repeat split; assumption.
  - intros Hcase.
    destruct (nodeEnv h =? "development") eqn:E;
      [destruct (persisted h) eqn:P|]; cbn in Hsto.
    + exact Hsto.
    + apply String.eqb_eq in E. destruct Hcase as [C|C]; congruence.
    + exact Hsto.
Qed.

Lemma construction_auto_seeds_witness :
  (storage (snd (snd (construct Helper.isHex Scenario.cppParams
                        Scenario.devHost))) = Some "c++"
   /\ filter isInteraction
        (emitted (blank, Scenario.devHost)
           (snd (construct Helper.isHex Scenario.cppParams Scenario.devHost)))
      = [])
  /\ storage (snd (snd (construct Helper.isHex Scenario.cppParams
                          Scenario.prodHost))) = None.
Proof.
  destruct (construction_auto_seeds Helper.isHex Scenario.cppParams
              Scenario.devHost) as [Hseed _].
  destruct (construction_auto_seeds Helper.isHex Scenario.cppParams
              Scenario.prodHost) as [_ Hkeep].
  destruct (Hseed eq_refl eq_refl) as (Hs & _ & Hi & _).
  assert (N : nodeEnv Scenario.prodHost <> "development") by discriminate.
  destruct (Hkeep (or_introl N)) as [Hk _].
  split; [split; [exact Hs | exact Hi] | exact Hk].
Defined.

(** *** The configuration flow *)

Lemma prompt_run (message : string) (i : instance) (h : host) :
  prompt message (i, h) = (Return (nextReply h), (i, prompted message h)).
Proof.
  unfold prompt, nextReply, prompted. destruct h as [sto env rep win tr].
  destruct rep; reflexivity.
Qed.

Lemma promptingVerbosity_run (i : instance) (h : host) :
  let message := fst (_getPromptMessage i) in
  let tagsNames := snd (_getPromptMessage i) in
  promptingVerbosity (i, h) =
    match parse (regStr tagsNames) with
    | Compiled r =>
        match match nextReply h with
              | Some reply => matchGlobal r (toUpperCase reply)
              | None => None
              end with
        | Some l =>
            (Return tt,
             (withDebugMode true (withVerboseMode (Some l) i),
              record [SetItem "verbose" (join "," l); Reload]
                (withStorage (Some (join "," l)) (prompted message h))))
        | None =>
            (Return tt,
             (i, record [AlertCall "Wrong Verbose Mode!"]
                   (prompted message h)))
        end
    | SyntaxError =>
        (Throw (RegExpSyntaxError (regStr tagsNames)), (i, prompted message h))
    | Unsupported => (OutsideModel, (i, prompted message h))
    end.
Proof.
  intros message tagsNames. subst message tagsNames.
  unfold promptingVerbosity, _getVerboseMode.
  unfold bind at 1 2. unfold this at 1. cbn [fst snd].
  destruct (_getPromptMessage i) as [message tagsNames]. cbn [fst snd].
  unfold bind at 1. rewrite prompt_run.
  unfold bind at 1. unfold _getRegex, newRegExp.
  destruct (parse (regStr tagsNames)) as [r| |]; try reflexivity.
  unfold ret at 1.
  destruct (nextReply h) as [reply|]; cbn [option_map].
  - destruct (matchGlobal r (toUpperCase reply)) as [l|].
    + unfold bind at 1. unfold modifyThis at 1, ret at 1. cbn [fst snd].
      unfold _setVerboseAndReload, bind.
      rewrite (setLocalVerbose_run _ _ (l := l)) by reflexivity.
      unfold emit, modifyHost. cbn [fst snd]. now rewrite record_record.
    + reflexivity.
  - reflexivity.
Qed.

(** A commit stores upper-case text: the tokens are matches in the
    upper-cased reply. *)
Lemma promptingVerbosity_storage (i : instance) (h : host) :
  let h' := snd (snd (promptingVerbosity (i, h))) in
  storage h' = storage h
  \/ exists l, storage h' = Some (join "," l)
               /\ isUpperCase (join "," l) = true.
Proof.
  intros h'. subst h'.
  pose proof (promptingVerbosity_run i h) as R. cbv zeta in R. rewrite R.
  destruct (parse _) as [r| |]; try (left; destruct h; reflexivity).
  destruct (nextReply h) as [reply|].
  - destruct (matchGlobal r (toUpperCase reply)) as [l|] eqn:E.
    + right. exists l. split; [reflexivity|].
      rewrite isUpperCase_join.
      exact (matchGlobal_upper r _ (isUpperCase_toUpperCase reply) E).
    + left. destruct h; reflexivity.
  - left. destruct h; reflexivity.
Qed.

Lemma verbose_storage (i : instance) (h : host) :
  let h' := snd (snd (_verbose (i, h))) in
  storage h' = storage h
  \/ exists l, storage h' = Some (join "," l)
               /\ isUpperCase (join "," l) = true.
Proof.
  intros h'. subst h'. unfold _verbose, bind.
  rewrite autorizeDeveloper_run.
  assert (P : forall m, storage (prompted m h) = storage h)
    by (intros m; destruct h; reflexivity).
  assert (Q : forall es h0, storage (record es h0) = storage h0)
    by (intros es h0; destruct h0; reflexivity).
  destruct (isDevelopment i).
  - unfold emit, modifyHost. cbn [fst snd].
    destruct (promptingVerbosity_storage i
                (record [ConsoleLog [VString "Authorized"]] h)) as [E|E];
      [left; rewrite E; apply Q | right; exact E].
  - destruct (match nextReply h with
              | Some p => (p =? password i)%string
              | None => false
              end).
    + unfold emit, modifyHost. cbn [fst snd].
      match goal with
      | |- context [promptingVerbosity (i, ?h0)] =>
          destruct (promptingVerbosity_storage i h0) as [E|E];
          [left; rewrite E; now rewrite !Q, P | right; exact E]
      end.
    + left. unfold emit, modifyHost. cbn [fst snd]. now rewrite !Q, P.
Qed.

Lemma matchGlobal_some_nonempty (r : regex) (s : string) (l : list string) :
  matchGlobal r s = Some l -> l <> [].
Proof.
  unfold matchGlobal. destruct (matchAllFrom _ r s); [discriminate|].
  intros [= <-]. discriminate.
Qed.

(** What PromptingVerbosity writes: nothing, or once the comma-join of
    the matches it has just stored in [verboseMode]. *)
Lemma promptingVerbosity_commit (i : instance) (h : host) :
  exists es,
    trace (snd (snd (promptingVerbosity (i, h)))) = (trace h ++ es)%list
    /\ ((filter isWrite es = []
         /\ storage (snd (snd (promptingVerbosity (i, h)))) = storage h)
        \/ exists m,
             m <> []
             /\ forallb isUpperCase m = true
             /\ verboseMode (fst (snd (promptingVerbosity (i, h)))) = Some m
             /\ filter isWrite es = [SetItem "verbose" (join "," m)]
             /\ storage (snd (snd (promptingVerbosity (i, h))))
                = Some (join "," m)).
Proof.
  pose proof (promptingVerbosity_run i h) as R. cbv zeta in R. rewrite R.
  set (message := fst (_getPromptMessage i)).
  destruct (parse _) as [r| |].
  - destruct (nextReply h) as [reply|].
    + destruct (matchGlobal r (toUpperCase reply)) as [l|] eqn:E.
      * exists [PromptCall message; SetItem "verbose" (join "," l); Reload].
        split; [destruct h; cbn; now rewrite <- app_assoc|].
        right. exists l.
        split; [exact (matchGlobal_some_nonempty _ _ E)|].
        split; [exact (matchGlobal_upper r _ (isUpperCase_toUpperCase reply) E)|].
        repeat split; destruct h; reflexivity.
      * exists [PromptCall message; AlertCall "Wrong Verbose Mode!"].
        split; [destruct h; cbn; now rewrite <- app_assoc|].
        left. split; destruct h; reflexivity.
    + exists [PromptCall message; AlertCall "Wrong Verbose Mode!"].
      split; [destruct h; cbn; now rewrite <- app_assoc|].
      left. split; destruct h; reflexivity.
  - exists [PromptCall message].
    split; [destruct h; reflexivity|]. left. split; destruct h; reflexivity.
  - exists [PromptCall message].
    split; [destruct h; reflexivity|]. left. split; destruct h; reflexivity.
Qed.

Lemma verbose_commit (i : instance) (h : host) :
  (filter isWrite (emitted (i, h) (snd (_verbose (i, h)))) = []
   /\ storage (snd (snd (_verbose (i, h)))) = storage h)
  \/ exists m,
       m <> []
       /\ forallb isUpperCase m = true
       /\ verboseMode (fst (snd (_verbose (i, h)))) = Some m
       /\ filter isWrite (emitted (i, h) (snd (_verbose (i, h))))
          = [SetItem "verbose" (join "," m)]
       /\ storage (snd (snd (_verbose (i, h)))) = Some (join "," m).
Proof.
  assert (K : forall pre h0,
            trace h0 = (trace h ++ pre)%list -> storage h0 = storage h ->
            filter isWrite pre = [] ->
            (filter isWrite (emitted (i, h) (snd (promptingVerbosity (i, h0)))) = []
             /\ storage (snd (snd (promptingVerbosity (i, h0)))) = storage h)
            \/ exists m,
                 m <> []
                 /\ forallb isUpperCase m = true
                 /\ verboseMode (fst (snd (promptingVerbosity (i, h0)))) = Some m
                 /\ filter isWrite
                      (emitted (i, h) (snd (promptingVerbosity (i, h0))))
                    = [SetItem "verbose" (join "," m)]
                 /\ storage (snd (snd (promptingVerbosity (i, h0))))
                    = Some (join "," m)).
  { intros pre h0 Htr Hsto Hw.
    destruct (promptingVerbosity_commit i h0) as (es & Hes & D).
    rewrite Htr, <- app_assoc in Hes.
    rewrite (emitted_app (i, h) _ _ Hes), !filter_app, Hw. cbn [app].
    rewrite <- Hsto. exact D. }
  unfold _verbose, bind. rewrite autorizeDeveloper_run.
  destruct (isDevelopment i).
  - unfold emit, modifyHost. cbn [fst snd].
    apply (K [ConsoleLog [VString "Authorized"]]);
      try reflexivity; destruct h; reflexivity.
  - destruct (match nextReply h with
              | Some p => (p =? password i)%string
              | None => false
              end).
    + unfold emit, modifyHost. cbn [fst snd].
      apply (K [PromptCall "Enter Your Development Password? ";
                ConsoleLog [valueOfReply (nextReply h)];
                ConsoleLog [VString "Authorized"]]);
        try reflexivity; destruct h; cbn; try reflexivity.
      now rewrite <- !app_assoc.
    + left. unfold emit, modifyHost. cbn [fst snd].
      rewrite (emitted_app (i, h) _
                 [PromptCall "Enter Your Development Password? ";
                  ConsoleLog [valueOfReply (nextReply h)];
                  ConsoleLog [VString "Not Authorized"]]).
      * split; destruct h; reflexivity.
      * destruct h; cbn. now rewrite <- !app_assoc.
Qed.

(** C5, as the code has it (on ASCII text).  A write stores the
    comma-join of the tokens as they are, with no change of case.  The
    ConfigurationFlow writes nothing or writes once the comma-join of the
    non-empty list of matches it leaves in [verboseMode], every one of
    them upper-case, so the stored text is upper-case.  The auto-seed
    stores the joined [defaultDeveloperMode], which is upper-case exactly
    when every token is.  The store upper-cases when it reads: what it
    returns is the stored value in upper case. *)
Theorem persisted_is_comma_joined (isHex : string -> bool)
  (p : consolerParams) (h : host) (i : instance) (l : list string) :
  asciiNames i = true ->
  asciiReplies h = true ->
  asciiStored h = true ->
  forallb isAscii (defaultDeveloperMode p) = true ->
  forallb isAscii l = true ->
  _setLocalVerbose (withVerboseMode (Some l) i, h)
  = (Return tt,
     (withDebugMode true (withVerboseMode (Some l) i),
      record [SetItem "verbose" (join "," l)]
        (withStorage (Some (join "," l)) h)))
  /\ ((filter isWrite (emitted (i, h) (snd (_verbose (i, h)))) = []
       /\ storage (snd (snd (_verbose (i, h)))) = storage h)
      \/ exists m,
           m <> []
           /\ forallb isUpperCase m = true
           /\ verboseMode (fst (snd (_verbose (i, h)))) = Some m
           /\ filter isWrite (emitted (i, h) (snd (_verbose (i, h))))
              = [SetItem "verbose" (join "," m)]
           /\ storage (snd (snd (_verbose (i, h)))) = Some (join "," m)
           /\ isUpperCase (join "," m) = true)
  /\ (storage (snd (snd (construct isHex p h)))
      = (if autoSeeds h then Some (join "," (defaultDeveloperMode p))
         else storage h)
      /\ filter isWrite (emitted (blank, h) (snd (construct isHex p h)))
         = (if autoSeeds h
            then [SetItem "verbose" (join "," (defaultDeveloperMode p))]
            else [])
      /\ isUpperCase (join "," (defaultDeveloperMode p))
         = forallb isUpperCase (defaultDeveloperMode p))
  /\ (_getLocalVerbose (i, h)
      = (Return (option_map toUpperCase (persisted h)), (i, h))
      /\ forall v, persisted h = Some v -> isUpperCase (toUpperCase v) = true).
Proof.
  intros _ _ _ _ _.
  split; [|split; [|split]].
  - apply setLocalVerbose_run. reflexivity.
  - destruct (verbose_commit i h) as [D|(m & Hne & Hup & Hvm & Hw & Hs)].
    + left. exact D.
    + right. exists m. repeat split; try assumption.
      now rewrite isUpperCase_join.
  - destruct (construct_host isHex p h) as (_ & _ & H). cbv zeta in H.
    destruct (autoSeeds h); destruct H as [H1 H2];
      (split; [exact H1 | split; [exact H2 | apply isUpperCase_join]]).
  - split; [apply getLocalVerbose_run|].
    intros v _. apply isUpperCase_toUpperCase.
Qed.

Lemma persisted_is_comma_joined_witness :
  storage (snd (snd (construct Helper.isHex Scenario.plainTagsParams
                       (mkHost None "development" [Some "warn, db info"]
                          false []))))
  = Some "INFO"
  /\ _getLocalVerbose
       (fst Scenario.plainTagsState,
        mkHost (Some "warn,Info") "development" [Some "warn, db info"] false [])
     = (Return (Some "WARN,INFO"),
        (fst Scenario.plainTagsState,
         mkHost (Some "warn,Info") "development" [Some "warn, db info"]
           false [])).
Proof.
  split.
  - exact (proj1 (proj1 (proj2 (proj2
             (persisted_is_comma_joined Helper.isHex Scenario.plainTagsParams
                (mkHost None "development" [Some "warn, db info"] false [])
                (fst Scenario.plainTagsState) ["warn"; "Info"]
                eq_refl eq_refl eq_refl eq_refl eq_refl))))).
  - exact (proj1 (proj2 (proj2 (proj2
             (persisted_is_comma_joined Helper.isHex Scenario.plainTagsParams
                (mkHost (Some "warn,Info") "development"
                   [Some "warn, db info"] false [])
                (fst Scenario.plainTagsState) ["warn"; "Info"]
                eq_refl eq_refl eq_refl eq_refl eq_refl))))).
Defined.

(** C5 as stated fails on the auto-seed: with [defaultDeveloperMode]
    ["warn"; "info"], construction in a development environment persists
    "warn,info", which is not upper-case. *)
Lemma auto_seed_keeps_lower_case :
  autoSeeds Scenario.devHost = true
  /\ storage (snd (snd (construct Helper.isHex Scenario.lowerParams
                          Scenario.devHost))) = Some "warn,info"
  /\ isUpperCase "warn,info" = false
  /\ ~ (forall p h, autoSeeds h = true ->
          exists v, storage (snd (snd (construct Helper.isHex p h))) = Some v
                    /\ isUpperCase v = true).
Proof.
  repeat split.
  intros H.
  destruct (H Scenario.lowerParams Scenario.devHost eq_refl) as (v & Hv & Hu).
  cbv in Hv. injection Hv as <-. discriminate Hu.
Qed.

Lemma plainName_upper (n : string) :
  plainName n = true ->
  isLiteral (toUpperCase n) = true /\ lacks "," (toUpperCase n) = true.
Proof.
  unfold plainName, isLiteral, lacks.
  induction n as [|c n IH]; cbn [chars forallb toUpperCase]; [now split|].
  rewrite !andb_true_iff. intros [[Hs Hc] Hn]. destruct (IH Hn) as [IH1 IH2].
  rewrite isSyntaxChar_toUpperCaseChar, Hs, IH1, IH2.
  repeat split.
  revert Hc. clear. destruct c as [[] [] [] [] [] [] [] []]; cbn; auto.
Qed.

(** With at most two plain tag names, the pattern [_getRegex] builds is
    the alternation of the known categories. *)
Lemma getRegex_known (tagsNames : option (list string)) :
  let names := match tagsNames with Some l => l | None => [] end in
  List.length names <= 2 -> forallb plainName names = true ->
  parse (regStr tagsNames) = Compiled (knownCategories tagsNames).
Proof.
  intros names Hlen Hplain. subst names.
  destruct tagsNames as [[|a [|b [|c l]]]|]; try reflexivity.
  - cbn [forallb] in Hplain. rewrite andb_true_r in Hplain.
    destruct (plainName_upper a Hplain) as [La Ca].
    unfold regStr, arrayToString. cbn [map join].
    rewrite replace_lacks
      by (rewrite !lacks_app, Ca; reflexivity).
    rewrite append_empty_r. unfold parse, staticRegStr.
    rewrite psteps_app, parse_static. cbv iota.
    rewrite (psteps_group _ _ _ La). reflexivity.
  - cbn [forallb] in Hplain. rewrite andb_true_r in Hplain.
    apply andb_true_iff in Hplain as [Pa Pb].
    destruct (plainName_upper a Pa) as [La Ca].
    destruct (plainName_upper b Pb) as [Lb Cb].
    unfold regStr, arrayToString. cbn [map].
    change (join "," ["|(" ++ toUpperCase a ++ ")"; "|(" ++ toUpperCase b ++ ")"])
      with (("|(" ++ toUpperCase a ++ ")")
              ++ String "," ("|(" ++ toUpperCase b ++ ")")).
    rewrite replace_first
      by (rewrite !lacks_app, Ca; reflexivity).
    change ("" ++ ?x) with x.
    rewrite append_empty_r. unfold parse, staticRegStr.
    rewrite psteps_app, parse_static. cbv iota.
    rewrite psteps_app, (psteps_group _ _ _ La).
    rewrite (psteps_group _ _ _ Lb). reflexivity.
  - cbn in Hlen. lia.
Qed.

(** With three tags only the first comma of the joined alternatives is
    removed, so a comma stays in the pattern. *)
Lemma regStr_three_tags :
  regStr (Some ["x"; "y"; "z"]) = "(INFO)|(WARN)|(SUCCESS)|(ERROR)|(X)|(Y),|(Z)".
Proof. reflexivity. Qed.

(** C3, as the code has it.  On ASCII text (reply and tag names), with
    at most two registered tags whose names hold no pattern syntax and no
    comma, PromptingVerbosity upper-cases the reply and extracts every
    match of the alternation of INFO, WARN, SUCCESS, ERROR and the
    upper-cased tag names; no reply or no match alerts and leaves the
    persisted state as it was, matches are stored through the store and
    followed by a reload.  Names are put into the pattern as they are,
    without escaping. *)
Theorem prompting_verbosity_known_categories (i : instance) (h : host) :
  asciiNames i = true ->
  asciiReplies h = true ->
  List.length (registeredNames i) <= 2 ->
  forallb plainName (registeredNames i) = true ->
  promptingVerbosityAsSpecified (i, h)
  /\ (verboseOptions (snd (_getPromptMessage i)) (nextReply h) = None ->
      storage (snd (snd (promptingVerbosity (i, h)))) = storage h).
Proof.
  intros _ _ Hlen Hplain.
  assert (N : match snd (_getPromptMessage i) with Some l => l | None => [] end
              = registeredNames i).
  { unfold _getPromptMessage, registeredNames. destruct (tags i); reflexivity. }
  pose proof (getRegex_known (snd (_getPromptMessage i))) as G.
  cbv zeta in G. rewrite N in G. specialize (G Hlen Hplain).
  pose proof (promptingVerbosity_run i h) as R. cbv zeta in R.
  rewrite G in R.
  assert (S : promptingVerbosityAsSpecified (i, h)).
  { unfold promptingVerbosityAsSpecified.
    destruct (_getPromptMessage i) as [message tagsNames].
    cbn [fst snd] in R. rewrite R. unfold verboseOptions.
    destruct (nextReply h); reflexivity. }
  split; [exact S|].
  intros Hnone. rewrite R. unfold verboseOptions in Hnone.
  destruct (nextReply h) as [reply|].
  - rewrite Hnone. destruct h; reflexivity.
  - destruct h; reflexivity.
Qed.

Lemma prompting_verbosity_known_categories_witness :
  promptingVerbosityAsSpecified Scenario.plainTagsState
  /\ storage (snd (snd (promptingVerbosity Scenario.plainTagsState)))
    = Some "WARN,DB,INFO".
Proof.
  split; [|reflexivity].
  exact (proj1 (prompting_verbosity_known_categories
                  (fst Scenario.plainTagsState) (snd Scenario.plainTagsState)
                  eq_refl eq_refl (le_n 2) eq_refl)).
Defined.

(** C3 as stated fails: tag names are not escaped.  With the tag "a.b"
    registered, the reply "axb" holds no known category, yet it is
    committed as "AXB" and the page is reloaded. *)
Lemma unescaped_tag_name_matches :
  verboseOptions (Some ["a.b"]) (Some "axb") = None
  /\ snd (_getPromptMessage (fst Scenario.dotState)) = Some ["a.b"]
  /\ storage (snd (snd (promptingVerbosity Scenario.dotState))) = Some "AXB"
  /\ filter (fun ev => match ev with Reload => true | _ => false end)
       (trace (snd (snd (promptingVerbosity Scenario.dotState)))) = [Reload]
  /\ ~ promptingVerbosityAsSpecified Scenario.dotState.
Proof.
  repeat split.
  intros H. cbv in H. discriminate H.
Qed.

End ConsolerFacts.

(** ** The tag registry *)

Module RegistryFacts.
Import JsStringFacts Consoler Spec Behaviour ConsolerFacts.
Local Open Scope consoler_scope.

Lemma get_set (V : Type) (k k' : string) (v : V) (o : JsObject.t V) :
  JsObject.get k (JsObject.set k' v o)
  = if String.eqb k' k then Some v else JsObject.get k o.
Proof.
  induction o as [|[k0 v0] o IH]; cbn.
  - reflexivity.
  - destruct (String.eqb k0 k') eqn:E0; cbn.
    + apply String.eqb_eq in E0. subst k0.
      destruct (String.eqb k' k); reflexivity.
    + destruct (String.eqb k0 k) eqn:E1; [|exact IH].
      apply String.eqb_eq in E1. subst k0.
      rewrite String.eqb_sym in E0. now rewrite E0.
Qed.

Lemma set_keys (V : Type) (k k' : string) (v : V) (o : JsObject.t V) :
  In k (map fst (JsObject.set k' v o)) <-> k = k' \/ In k (map fst o).
Proof.
  induction o as [|[k0 v0] o IH]; cbn.
  - intuition.
  - destruct (String.eqb k0 k') eqn:E0; cbn.
    + apply String.eqb_eq in E0. subst k0. intuition.
    + rewrite IH. intuition.
Qed.

Lemma set_NoDup (V : Type) (k' : string) (v : V) (o : JsObject.t V) :
  NoDup (map fst o) -> NoDup (map fst (JsObject.set k' v o)).
Proof.
  induction o as [|[k0 v0] o IH]; cbn; intros H.
  - constructor; [intros [] | constructor].
  - inversion H as [|? ? Hin Hnd]; subst.
    destruct (String.eqb k0 k') eqn:E0; cbn.
    + apply String.eqb_eq in E0. subst k0. now constructor.
    + constructor; [|now apply IH].
      rewrite set_keys. intros [->|Hk]; [|contradiction].
      now rewrite String.eqb_refl in E0.
Qed.

Lemma insertIndex_permutation (n : N) (k : string) (l : list (N * string)) :
  Permutation (JsObject.insertIndex n k l) ((n, k) :: l).
Proof.
  induction l as [|[m k'] l IH]; cbn; [reflexivity|].
  destruct (n <? m)%N; [reflexivity|].
  rewrite IH. apply perm_swap.
Qed.

(** [Object.keys] enumerates the own keys, each once. *)
Lemma keys_permutation (V : Type) (o : JsObject.t V) :
  Permutation (JsObject.keys o) (map fst o).
Proof.
  unfold JsObject.keys. induction o as [|[k v] o IH]; cbn; [reflexivity|].
  destruct (JsObject.arrayIndex k) as [n|].
  - rewrite (Permutation_map snd (insertIndex_permutation n k _)). cbn.
    now rewrite IH.
  - rewrite <- Permutation_middle. now rewrite IH.
Qed.

Lemma getTagsObject_run (isHex : string -> bool) (l : list verboseTag)
  (st : state) :
  _getTagsObject isHex l st =
    if validTags isHex l
    then (Return (fold_left (fun a v => JsObject.set (fst v) (snd v) a)
                    (map (fun t => (displayName t, functionOf t)) l) []),
          st)
    else (Throw notHex, st).
Proof.
  unfold _getTagsObject, bind, validTags. rewrite tagsFunctions_run.
  destruct (forallb _ l); reflexivity.
Qed.

Lemma registry_get (name : string) (l : list verboseTag)
  (acc : JsObject.t tagFunction) :
  JsObject.get name
    (fold_left (fun a v => JsObject.set (fst v) (snd v) a)
       (map (fun t => (displayName t, functionOf t)) l) acc)
  = match lastNamed name l with
    | Some t => Some (functionOf t)
    | None => JsObject.get name acc
    end.
Proof.
  revert acc. induction l as [|t l IH]; intros acc; cbn [map fold_left lastNamed].
  - reflexivity.
  - rewrite IH. destruct (lastNamed name l); [reflexivity|].
    cbn [fst snd]. rewrite get_set.
    destruct (String.eqb (displayName t) name); reflexivity.
Qed.

Lemma registry_keys (l : list verboseTag) (acc : JsObject.t tagFunction) :
  let o := fold_left (fun a v => JsObject.set (fst v) (snd v) a)
             (map (fun t => (displayName t, functionOf t)) l) acc in
  (NoDup (map fst acc) -> NoDup (map fst o))
  /\ forall k, In k (map fst o)
              <-> In k (map fst acc) \/ exists t, In t l /\ displayName t = k.
Proof.
  revert acc. induction l as [|t l IH]; intros acc; cbn [map fold_left].
  - split; [auto|]. intros k. split; [auto|].
    intros [H|(t & [] & _)]. exact H.
  - destruct (IH (JsObject.set (displayName t) (functionOf t) acc)) as [IH1 IH2].
    cbn [fst snd]. split.
    + intros H. apply IH1, set_NoDup, H.
    + intros k. rewrite IH2, set_keys. split.
      * intros [[->|H]|(u & Hu & E)].
        -- right. exists t. split; [now left | reflexivity].
        -- now left.
        -- right. exists u. split; [now right | exact E].
      * intros [H|(u & [->|Hu] & E)].
        -- left. now right.
        -- left. left. now symmetry.
        -- right. exists u. now split.
Qed.

(** X1. When every colour is valid, the function kept under a name is
    the one of the last tag registered with that display name (its
    colour included); a name no tag carries has no function. *)
Theorem registry_last_write_wins (isHex : string -> bool)
  (l : list verboseTag) (st : state) :
  validTags isHex l = true ->
  exists o,
    _getTagsObject isHex l st = (Return o, st)
    /\ forall name,
         JsObject.get name o = option_map functionOf (lastNamed name l).
Proof.
  intros H. rewrite getTagsObject_run, H. eexists. split; [reflexivity|].
  intros name. rewrite registry_get. now destruct (lastNamed name l).
Qed.

Lemma registry_last_write_wins_witness :
  exists o,
    _getTagsObject Helper.isHex
      [mkTag "net" "#0af"; mkTag "db" "#fa0"; mkTag "net" "#f00"]
      Scenario.warnState = (Return o, Scenario.warnState)
    /\ JsObject.get "net" o = Some (mkTagFunction "#f00" "net")
    /\ JsObject.get "ui" o = None.
Proof.
  destruct (registry_last_write_wins Helper.isHex
              [mkTag "net" "#0af"; mkTag "db" "#fa0"; mkTag "net" "#f00"]
              Scenario.warnState eq_refl) as (o & Ho & Hget).
  exists o. split; [exact Ho|]. split; apply Hget.
Defined.

(** X2. When every colour is valid, the names the registry enumerates
    (the ones listed in the prompt and put in the pattern) are the display
    names of the tags, each exactly once however often it was registered. *)
Theorem registry_names_distinct (isHex : string -> bool)
  (l : list verboseTag) (st : state) :
  validTags isHex l = true ->
  exists o,
    _getTagsObject isHex l st = (Return o, st)
    /\ NoDup (JsObject.keys o)
    /\ forall k, In k (JsObject.keys o)
                <-> exists t, In t l /\ displayName t = k.
Proof.
  intros H. rewrite getTagsObject_run, H. eexists. split; [reflexivity|].
  destruct (registry_keys l []) as [K1 K2]. cbv zeta in K1, K2.
  split.
  - apply (Permutation_NoDup (Permutation_sym (keys_permutation _))).
    apply K1. constructor.
  - intros k. split.
    + intros Hk. apply (Permutation_in _ (keys_permutation _)) in Hk.
      apply K2 in Hk as [[]|Hk]. exact Hk.
    + intros Hk. apply (Permutation_in _ (Permutation_sym (keys_permutation _))).
      apply K2. now right.
Qed.

Lemma registry_names_distinct_witness :
  exists o,
    _getTagsObject Helper.isHex
      [mkTag "net" "#0af"; mkTag "db" "#fa0"; mkTag "net" "#f00"]
      Scenario.warnState = (Return o, Scenario.warnState)
    /\ NoDup (JsObject.keys o)
    /\ (In "net" (JsObject.keys o) /\ ~ In "ui" (JsObject.keys o)).
Proof.
  destruct (registry_names_distinct Helper.isHex
              [mkTag "net" "#0af"; mkTag "db" "#fa0"; mkTag "net" "#f00"]
              Scenario.warnState eq_refl) as (o & Ho & Hnd & Hk).
  exists o. split; [exact Ho|]. split; [exact Hnd|]. split.
  - apply Hk. exists (mkTag "net" "#0af"). split; [now left | reflexivity].
  - intros Hin. apply Hk in Hin as (t & Ht & E).
    cbn in Ht. destruct Ht as [<-|[<-|[<-|[]]]]; discriminate E.
Defined.

End RegistryFacts.

(** ** More on the gate and on dispatching *)

Module DispatchFacts.
Import JsStringFacts JsRegExpFacts Consoler Spec Behaviour ConsolerFacts.
Local Open Scope consoler_scope.

Lemma groupOf_display (e : entry) (m : value) (rest : list value) :
  forallb isDisplayOrCallback (groupOf e m rest) = true
  /\ filter isCallback (groupOf e m rest) = [].
Proof. split; reflexivity. Qed.

(** What a dispatch adds to the trace, whatever its outcome. *)
Lemma dispatch_added (e : entry) (m : value) (rest : list value)
  (i : instance) (h : host) :
  exists es,
    snd (dispatch e m rest (i, h)) = (i, record es h)
    /\ (es = []
        \/ es = ((if isDebugModeEnable i then groupOf e m rest else [])
                 ++ callbackOf i e m)%list).
Proof.
  rewrite dispatch_run.
  destruct (_searchInLocalVerbose (category e) (i, h)) as [[[]| |] st'].
  - eexists. split; [|right; reflexivity]. cbn [snd]. unfold callbackOf.
    destruct (isDebugModeEnable i).
    + now rewrite record_record.
    + reflexivity.
  - exists []. split; [now rewrite record_nil | now left].
  - exists []. split; [now rewrite record_nil | now left].
  - exists []. split; [now rewrite record_nil | now left].
Qed.

(** X3. Whatever its outcome, a dispatch leaves the instance, the
    storage, the operator's replies and the trigger as they were; it only
    adds calls to the trace, and every call it adds goes to the display
    sink or to the callback: it never writes, prompts, alerts or
    reloads. *)
Theorem dispatch_only_displays (e : entry) (m : value) (rest : list value)
  (i : instance) (h : host) :
  exists es,
    snd (dispatch e m rest (i, h)) = (i, record es h)
    /\ forallb isDisplayOrCallback es = true.
Proof.
  destruct (dispatch_added e m rest i h) as (es & Hes & [->| ->]).
  - exists []. split; [exact Hes | reflexivity].
  - eexists. split; [exact Hes|].
    rewrite forallb_app. unfold callbackOf.
    destruct (isDebugModeEnable i), (callbackFunction i); reflexivity.
Qed.

(** X4. The extra arguments of a dispatch reach the display sink only:
    the outcome and the calls made to the callback are the same whatever
    extra arguments are passed. *)
Theorem callback_ignores_optional_params (e : entry) (m : value)
  (rest rest' : list value) (st : state) :
  fst (dispatch e m rest st) = fst (dispatch e m rest' st)
  /\ filter isCallback (emitted st (snd (dispatch e m rest st)))
     = filter isCallback (emitted st (snd (dispatch e m rest' st))).
Proof.
  destruct st as [i h]. rewrite !dispatch_run.
  destruct (_searchInLocalVerbose (category e) (i, h)) as [[[]| |] st'];
    cbn [fst snd]; try (split; reflexivity).
  split; [reflexivity|].
  destruct (isDebugModeEnable i).
  - rewrite !record_record, !emitted_record, !filter_app.
    now rewrite (proj2 (groupOf_display e m rest)),
                (proj2 (groupOf_display e m rest')).
  - now rewrite !emitted_record.
Qed.

(** X5. With nothing persisted (no entry, or the empty string) every
    dispatch is a silent no-op, also for a tag whose name is not a valid
    pattern: the gate answers before any pattern is built. *)
Theorem nothing_persisted_nothing_emitted (e : entry) (m : value)
  (rest : list value) (i : instance) (h : host) :
  persisted h = None ->
  dispatch e m rest (i, h) = (Return tt, (i, h)).
Proof.
  intros H. rewrite dispatch_run, searchInLocalVerbose_run, H. reflexivity.
Qed.

Lemma nothing_persisted_nothing_emitted_witness :
  dispatch Scenario.cppEntry (VString "built") [VRef 1]
    (blank, withStorage (Some "") Scenario.prodHost)
  = (Return tt, (blank, withStorage (Some "") Scenario.prodHost)).
Proof. apply nothing_persisted_nothing_emitted. reflexivity. Defined.

(** X6. On ASCII text, for a query without pattern syntax the
    membership check is exactly the case-insensitive substring test: it
    answers true when, and only when, the upper-cased query occurs in the
    upper-cased stored string; it never raises. *)
Theorem contains_plain_query (q v : string) (i : instance) (h : host) :
  isAscii q = true ->
  isAscii v = true ->
  isLiteral q = true ->
  persisted h = Some v ->
  exists b,
    _searchInLocalVerbose q (i, h) = (Return b, (i, h))
    /\ (b = true
        <-> exists pre post, toUpperCase v = pre ++ toUpperCase q ++ post).
Proof.
  intros _ _ Hq Hv. rewrite (searchInLocalVerbose_literal q i h Hq), Hv.
  eexists. split; [reflexivity|]. split.
  - apply includes_occurs.
  - intros (pre & post & ->). apply includes_app.
Qed.

Lemma contains_plain_query_witness :
  _searchInLocalVerbose "warn" (blank, withStorage (Some "info,Warn") Scenario.prodHost)
  = (Return true, (blank, withStorage (Some "info,Warn") Scenario.prodHost)).
Proof.
  destruct (@contains_plain_query "warn" "info,Warn" blank
              (withStorage (Some "info,Warn") Scenario.prodHost)
              eq_refl eq_refl eq_refl eq_refl) as (b & Hb & Hiff).
  rewrite Hb. f_equal. f_equal. apply Hiff. now exists "INFO,", "".
Defined.

(** X7. The membership check is case-insensitive on both sides, for
    every query (pattern syntax or not): two queries with the same upper
    case get the same answer or the same error against two stored strings
    with the same upper case. *)
Theorem contains_case_insensitive (q q' v v' : string) (i : instance)
  (h : host) :
  toUpperCase q = toUpperCase q' ->
  toUpperCase v = toUpperCase v' ->
  fst (_searchInLocalVerbose q (i, withStorage (Some v) h))
  = fst (_searchInLocalVerbose q' (i, withStorage (Some v') h)).
Proof.
  intros Hq Hv. rewrite !searchInLocalVerbose_run.
  assert (P : forall w, persisted (withStorage (Some w) h)
                        = if truthy w then Some w else None)
    by (intros w; destruct h; reflexivity).
  rewrite !P, <- (truthy_toUpperCase v), <- (truthy_toUpperCase v'), Hv, Hq.
  destruct (truthy (toUpperCase v')); [|reflexivity].
  cbv iota. rewrite Hv.
  destruct (parse (toUpperCase q')); reflexivity.
Qed.

Lemma contains_case_insensitive_witness :
  fst (_searchInLocalVerbose "Warn" (blank, withStorage (Some "warn,info") Scenario.prodHost))
  = fst (_searchInLocalVerbose "WARN" (blank, withStorage (Some "WARN,Info") Scenario.prodHost)).
Proof.
  apply (contains_case_insensitive "Warn" "WARN" "warn,info" "WARN,Info");
    reflexivity.
Defined.

(** X8. On an instance as construction leaves it, with the storage
    untouched since, an ASCII category without pattern syntax that is
    present in the (ASCII) persisted value is displayed: its dispatch
    emits exactly one group and, with a callback configured, one callback
    call.  Construction has set the debug flag whenever something is
    persisted. *)
Theorem constructed_instance_displays (isHex : string -> bool)
  (p : consolerParams) (h : host) (e : entry) (m : value)
  (rest : list value) :
  let st := snd (construct isHex p h) in
  isAscii (category e) = true ->
  asciiStored (snd st) = true ->
  presentIn (category e) (snd st) ->
  isLiteral (category e) = true ->
  dispatch e m rest st
  = (Return tt,
     (fst st, record (groupOf e m rest ++ callbackOf (fst st) e m) (snd st))).
Proof.
  intros st _ _ (v & Hv & Hin) Hlit.
  pose proof (@construct_sets_flag isHex p h v Hv) as Hflag. fold st in Hflag.
  destruct st as [i' h']. cbn [fst snd] in *.
  rewrite dispatch_run, (searchInLocalVerbose_literal _ i' h' Hlit).
  rewrite Hv, Hin, Hflag, record_record. reflexivity.
Qed.

Lemma constructed_instance_displays_witness :
  dispatch Warn (VString "saved") []
    (snd (construct Helper.isHex Scenario.lowerParams Scenario.devHost))
  = (Return tt,
     (fst (snd (construct Helper.isHex Scenario.lowerParams Scenario.devHost)),
      record (groupOf Warn (VString "saved") [])
        (snd (snd (construct Helper.isHex Scenario.lowerParams
                     Scenario.devHost))))).
Proof.
  exact (constructed_instance_displays Helper.isHex Scenario.lowerParams
           Scenario.devHost Warn (VString "saved") [] eq_refl eq_refl
           (ex_intro _ "warn,info" (conj eq_refl eq_refl)) eq_refl).
Defined.

End DispatchFacts.

(** ** More on construction *)

Module ConstructionFacts.
Import JsStringFacts Consoler Spec Behaviour ConsolerFacts.
Local Open Scope consoler_scope.

Lemma registerTags_host (isHex : string -> bool)
  (l : option (list verboseTag)) (i : instance) (h : host) :
  snd (snd (registerTags isHex l (i, h))) = h.
Proof.
  rewrite registerTags_run. destruct l as [l|]; [|reflexivity].
  destruct (forallb _ l); reflexivity.
Qed.

Lemma registerTags_fields (isHex : string -> bool)
  (l : option (list verboseTag)) (i : instance) (h : host) :
  verboseMode (fst (snd (registerTags isHex l (i, h)))) = verboseMode i
  /\ isDebugModeEnable (fst (snd (registerTags isHex l (i, h))))
     = isDebugModeEnable i.
Proof.
  rewrite registerTags_run. destruct l as [l|]; [|split; reflexivity].
  destruct (forallb _ l); split; reflexivity.
Qed.

Lemma registerTags_outcome (isHex : string -> bool)
  (l : option (list verboseTag)) (i : instance) (h : host) :
  fst (registerTags isHex l (i, h))
  = match l with
    | Some l => if validTags isHex l then Return tt else Throw notHex
    | None => Return tt
    end.
Proof.
  rewrite registerTags_run. unfold validTags.
  destruct l as [l|]; [|reflexivity]. destruct (forallb _ l); reflexivity.
Qed.

(** X9. How construction ends.  It raises a TypeError exactly when it
    auto-seeds (development environment, nothing persisted) an empty
    [defaultDeveloperMode] (one that joins to the empty string); otherwise
    it raises the tag error when a colour is invalid and returns when
    none is.  In every case the global trigger has been installed. *)
Theorem construction_outcome (isHex : string -> bool) (p : consolerParams)
  (h : host) :
  fst (construct isHex p h)
  = (if autoSeeds h && negb (truthy (join "," (defaultDeveloperMode p)))
     then Throw TypeError
     else match paramTags p with
          | Some l => if validTags isHex l then Return tt else Throw notHex
          | None => Return tt
          end)
  /\ windowVerbose (snd (snd (construct isHex p h))) = true.
Proof.
  rewrite construct_run.
  pose proof (initialise_run p h) as R. cbv zeta in R. rewrite R. clear R.
  unfold autoSeeds.
  assert (W : forall es h0, windowVerbose (record es h0) = windowVerbose h0)
    by (intros es h0; destruct h0; reflexivity).
  assert (W1 : forall sto h0, windowVerbose (withStorage sto h0) = windowVerbose h0)
    by (intros sto h0; destruct h0; reflexivity).
  assert (W2 : forall h0, windowVerbose (withWindowVerbose true h0) = true)
    by (intros h0; destruct h0; reflexivity).
  destruct (persisted h) as [v|].
  - rewrite andb_false_r.
    rewrite registerTags_host, registerTags_outcome. split; [reflexivity | now rewrite W, W, W2].
  - destruct (nodeEnv h =? "development"); cbn [andb].
    + destruct (truthy (join "," (defaultDeveloperMode p))); cbn [negb].
      * rewrite registerTags_host, registerTags_outcome. split; [reflexivity | now rewrite W, W, W1, W, W2].
      * split; [reflexivity | cbn [snd]; now rewrite W, W1, W, W2].
    + rewrite registerTags_host, registerTags_outcome. split; [reflexivity | now rewrite W, W2].
Qed.

Lemma construction_reads_persisted_aux (isHex : string -> bool)
  (p : consolerParams) (h : host) :
  verboseMode (fst (snd (construct isHex p h)))
  = match persisted h with
    | Some v => Some (split "," (toUpperCase v))
    | None =>
        if String.eqb (nodeEnv h) "development"
        then (if truthy (join "," (defaultDeveloperMode p))
              then Some (split "," (toUpperCase (join "," (defaultDeveloperMode p))))
              else None)
        else Some (defaultDeveloperMode p)
    end
  /\ isDebugModeEnable (fst (snd (construct isHex p h)))
     = match persisted h with
       | Some _ => true
       | None => String.eqb (nodeEnv h) "development"
       end.
Proof.
  rewrite construct_run.
  pose proof (initialise_run p h) as R. cbv zeta in R. rewrite R. clear R.
  destruct (persisted h) as [v|].
  - split; [apply registerTags_fields | apply registerTags_fields].
  - destruct (nodeEnv h =? "development").
    + destruct (truthy (join "," (defaultDeveloperMode p))).
      * split; [apply registerTags_fields | apply registerTags_fields].
      * split; reflexivity.
    + split; [apply registerTags_fields | apply registerTags_fields].
Qed.

(** X10. What the instance knows after construction, on ASCII text.
    When a value is persisted, [verboseMode] is that value upper-cased and
    split on commas, and [defaultDeveloperMode] is ignored; when
    construction auto-seeds, it is the joined default read back the same
    way; outside a development environment with nothing persisted it is
    the default as given, with the debug flag cleared. *)
Theorem construction_reads_persisted (isHex : string -> bool)
  (p : consolerParams) (h : host) :
  asciiStored h = true ->
  forallb isAscii (defaultDeveloperMode p) = true ->
  let i' := fst (snd (construct isHex p h)) in
  let j := join "," (defaultDeveloperMode p) in
  verboseMode i'
  = match persisted h with
    | Some v => Some (split "," (toUpperCase v))
    | None =>
        if String.eqb (nodeEnv h) "development"
        then (if truthy j then Some (split "," (toUpperCase j)) else None)
        else Some (defaultDeveloperMode p)
    end
  /\ isDebugModeEnable i'
     = match persisted h with
       | Some _ => true
       | None => String.eqb (nodeEnv h) "development"
       end.
Proof. intros _ _. exact (construction_reads_persisted_aux isHex p h). Qed.

Lemma construction_reads_persisted_witness :
  verboseMode
    (fst (snd (construct Helper.isHex Scenario.lowerParams
                 (mkHost (Some "warn,Net") "development" [] false []))))
  = Some ["WARN"; "NET"].
Proof.
  exact (proj1 (construction_reads_persisted Helper.isHex Scenario.lowerParams
                  (mkHost (Some "warn,Net") "development" [] false [])
                  eq_refl eq_refl)).
Defined.

(** X11. A committed set survives the reload.  When the flow stores a
    non-empty list of upper-case, comma-free ASCII tokens (not all empty) and
    the page is constructed again on that storage, in any environment and
    with any parameters, the new instance holds exactly those tokens, has
    its debug flag set and writes nothing. *)
Theorem committed_set_survives_reload (isHex : string -> bool)
  (p : consolerParams) (i : instance) (h : host) (l : list string) :
  l <> [] ->
  forallb isAscii l = true ->
  forallb (lacks ",") l = true ->
  forallb isUpperCase l = true ->
  truthy (join "," l) = true ->
  let reloaded := snd (snd (_setVerboseAndReload (withVerboseMode (Some l) i, h))) in
  let st' := snd (construct isHex p reloaded) in
  verboseMode (fst st') = Some l
  /\ isDebugModeEnable (fst st') = true
  /\ storage (snd st') = Some (join "," l).
Proof.
  intros Hne _ Hc Hu Ht reloaded st'.
  assert (E : reloaded
              = record [SetItem "verbose" (join "," l); Reload]
                  (withStorage (Some (join "," l)) h)).
  { subst reloaded. unfold _setVerboseAndReload, bind.
    rewrite (setLocalVerbose_run _ h (l := l)) by reflexivity.
    unfold emit, modifyHost. cbn [fst snd]. now rewrite record_record. }
  assert (P : persisted reloaded = Some (join "," l)).
  { rewrite E. unfold persisted. destruct h; cbn. now rewrite Ht. }
  destruct (construction_reads_persisted_aux isHex p reloaded) as [V F].
  subst st'. rewrite V, F, P. split; [|split; [reflexivity|]].
  - f_equal.
    assert (U : toUpperCase (join "," l) = join "," l)
      by (apply isUpperCase_spec; now rewrite isUpperCase_join).
    rewrite U. now apply split_join.
  - destruct (construct_host isHex p reloaded) as (_ & _ & S).
    unfold autoSeeds in S. rewrite P, andb_false_r in S.
    rewrite (proj1 S), E. destruct h; reflexivity.
Qed.

Lemma committed_set_survives_reload_witness :
  verboseMode
    (fst (snd (construct Helper.isHex Scenario.plainParams
                 (snd (snd (_setVerboseAndReload
                              (withVerboseMode (Some ["WARN"; "ERROR"]) blank,
                               Scenario.prodHost)))))))
  = Some ["WARN"; "ERROR"].
Proof.
  refine (proj1 (committed_set_survives_reload Helper.isHex Scenario.plainParams
                   blank Scenario.prodHost (l := ["WARN"; "ERROR"])
                   _ eq_refl eq_refl eq_refl eq_refl)).
  discriminate.
Defined.

End ConstructionFacts.

(** ** More on the configuration flow *)

Module FlowFacts.
Import JsStringFacts JsRegExpFacts Consoler Spec Behaviour ConsolerFacts.
Local Open Scope consoler_scope.

Lemma matchGlobal_nonempty (r : regex) (s : string) (l : list string) :
  matchGlobal r s = Some l -> l <> [].
Proof.
  unfold matchGlobal. destruct (matchAllFrom _ r s); [discriminate|].
  intros [= <-]. discriminate.
Qed.

(** X12. Outside a development environment, an entry that is not the
    password ends the flow at once: the entry and "Not Authorized" are
    logged, and nothing else happens (no second prompt, no alert, no
    write, no reload; instance and storage as before). *)
Theorem wrong_password_changes_nothing (i : instance) (h : host) :
  isDevelopment i = false ->
  nextReply h <> Some (password i) ->
  _verbose (i, h)
  = (Return tt,
     (i, record [ConsoleLog [valueOfReply (nextReply h)];
                 ConsoleLog [VString "Not Authorized"]]
           (prompted "Enter Your Development Password? " h))).
Proof.
  intros Hdev Hpass. unfold _verbose, bind.
  rewrite autorizeDeveloper_run, Hdev.
  assert (E : match nextReply h with
              | Some p => (p =? password i)%string
              | None => false
              end = false).
  { destruct (nextReply h) as [r|]; [|reflexivity].
    destruct (String.eqb_spec r (password i)) as [->|]; [now destruct Hpass|].
    reflexivity. }
  rewrite E. unfold emit, modifyHost. cbn [fst snd]. now rewrite record_record.
Qed.

Lemma wrong_password_changes_nothing_witness :
  storage (snd (snd (_verbose (fst Scenario.warnState,
                               withReplies [Some "guess"; Some "info"]
                                 (snd Scenario.warnState)))))
  = Some "WARN".
Proof.
  rewrite (wrong_password_changes_nothing (fst Scenario.warnState)
             (withReplies [Some "guess"; Some "info"] (snd Scenario.warnState))
             eq_refl).
  - reflexivity.
  - discriminate.
Defined.

Lemma promptingVerbosity_coupled (i : instance) (h : host) :
  exists es,
    trace (snd (snd (promptingVerbosity (i, h)))) = (trace h ++ es)%list
    /\ ((filter isWrite es = [] /\ filter isReload es = []
         /\ storage (snd (snd (promptingVerbosity (i, h)))) = storage h
         /\ fst (snd (promptingVerbosity (i, h))) = i)
        \/ exists l,
             l <> []
             /\ filter isWrite es = [SetItem "verbose" (join "," l)]
             /\ filter isReload es = [Reload]
             /\ storage (snd (snd (promptingVerbosity (i, h))))
                = Some (join "," l)
             /\ fst (snd (promptingVerbosity (i, h)))
                = withDebugMode true (withVerboseMode (Some l) i)).
Proof.
  pose proof (promptingVerbosity_run i h) as R. cbv zeta in R. rewrite R.
  set (message := fst (_getPromptMessage i)).
  destruct (parse _) as [r| |].
  - destruct (match nextReply h with
              | Some reply => matchGlobal r (toUpperCase reply)
              | None => None
              end) as [l|] eqn:E.
    + exists [PromptCall message; SetItem "verbose" (join "," l); Reload].
      split; [destruct h; cbn; now rewrite <- app_assoc|].
      right. exists l. repeat split; try (destruct h; reflexivity).
      destruct (nextReply h); [|discriminate].
      exact (matchGlobal_nonempty _ _ E).
    + exists [PromptCall message; AlertCall "Wrong Verbose Mode!"].
      split; [destruct h; cbn; now rewrite <- app_assoc|].
      left. repeat split; destruct h; reflexivity.
  - exists [PromptCall message].
    split; [destruct h; reflexivity|].
    left. repeat split; destruct h; reflexivity.
  - exists [PromptCall message].
    split; [destruct h; reflexivity|].
    left. repeat split; destruct h; reflexivity.
Qed.

(** X13. The flow commits and reloads together or not at all.  Either
    it writes nothing, does not reload and leaves storage and instance as
    they were (not authorised, no reply, no match, or a pattern error), or
    it writes exactly once the comma-join of a non-empty list of matches,
    reloads exactly once, and the instance holds those matches with its
    debug flag set. *)
Theorem flow_commits_and_reloads_together (i : instance) (h : host) :
  let st' := snd (_verbose (i, h)) in
  let es := emitted (i, h) st' in
  (filter isWrite es = [] /\ filter isReload es = []
   /\ storage (snd st') = storage h /\ fst st' = i)
  \/ exists l,
       l <> []
       /\ filter isWrite es = [SetItem "verbose" (join "," l)]
       /\ filter isReload es = [Reload]
       /\ storage (snd st') = Some (join "," l)
       /\ fst st' = withDebugMode true (withVerboseMode (Some l) i).
Proof.
  cbv zeta.
  assert (K : forall pre h0,
            trace h0 = (trace h ++ pre)%list -> storage h0 = storage h ->
            filter isWrite pre = [] -> filter isReload pre = [] ->
            let st' := snd (promptingVerbosity (i, h0)) in
            let es := emitted (i, h) st' in
            (filter isWrite es = [] /\ filter isReload es = []
             /\ storage (snd st') = storage h /\ fst st' = i)
            \/ exists l,
                 l <> []
                 /\ filter isWrite es = [SetItem "verbose" (join "," l)]
                 /\ filter isReload es = [Reload]
                 /\ storage (snd st') = Some (join "," l)
                 /\ fst st' = withDebugMode true (withVerboseMode (Some l) i)).
  { intros pre h0 Htr Hsto Hw Hr. cbv zeta.
    destruct (promptingVerbosity_coupled i h0) as (es & Hes & D).
    rewrite Htr, <- app_assoc in Hes.
    rewrite (emitted_app (i, h) _ _ Hes), !filter_app, Hw, Hr. cbn [app].
    rewrite <- Hsto. exact D. }
  unfold _verbose, bind. rewrite autorizeDeveloper_run.
  destruct (isDevelopment i).
  - unfold emit, modifyHost. cbn [fst snd].
    apply (K [ConsoleLog [VString "Authorized"]]);
      try reflexivity; destruct h; reflexivity.
  - destruct (match nextReply h with
              | Some p => (p =? password i)%string
              | None => false
              end).
    + unfold emit, modifyHost. cbn [fst snd].
      apply (K [PromptCall "Enter Your Development Password? ";
                ConsoleLog [valueOfReply (nextReply h)];
                ConsoleLog [VString "Authorized"]]);
        try reflexivity; destruct h; cbn; try reflexivity.
      now rewrite <- !app_assoc.
    + left. unfold emit, modifyHost. cbn [fst snd].
      rewrite (emitted_app (i, h) _
                 [PromptCall "Enter Your Development Password? ";
                  ConsoleLog [valueOfReply (nextReply h)];
                  ConsoleLog [VString "Not Authorized"]]).
      * repeat split; destruct h; reflexivity.
      * destruct h; cbn. now rewrite <- !app_assoc.
Qed.

End FlowFacts.

(** ** The words the flow can commit *)

Module PatternFacts.
Import JsStringFacts JsRegExpFacts Consoler Spec Behaviour ConsolerFacts.
Local Open Scope consoler_scope.

(** *** Strings *)

Lemma startsWith_occurs (w s : string) :
  startsWith w s = true -> exists post, s = w ++ post.
Proof.
  revert s. induction w as [|a w IH]; intros s H; cbn in H.
  - now exists s.
  - destruct s as [|b s]; [discriminate|].
    apply andb_true_iff in H as [Hab H]. apply Ascii.eqb_eq in Hab as ->.
    destruct (IH _ H) as [post ->]. now exists post.
Qed.

Lemma length_app (a b : string) :
  String.length (a ++ b) = String.length a + String.length b.
Proof. induction a as [|c a IH]; cbn; [reflexivity | now rewrite IH]. Qed.

Lemma drop_app (w post : string) : drop (String.length w) (w ++ post) = post.
Proof. induction w as [|c w IH]; cbn; [reflexivity | exact IH]. Qed.

Lemma take_app (w post : string) : take (String.length w) (w ++ post) = w.
Proof. induction w as [|c w IH]; cbn; [reflexivity | now rewrite IH]. Qed.

Lemma take_matched (w s : string) :
  startsWith w s = true ->
  take (String.length s - String.length (drop (String.length w) s)) s = w.
Proof.
  intros H. destruct (startsWith_occurs w s H) as [post ->].
  rewrite drop_app, length_app.
  replace (String.length w + String.length post - String.length post)
    with (String.length w) by lia.
  apply take_app.
Qed.

Lemma existsb_orb (A : Type) (f g : A -> bool) (l : list A) :
  existsb (fun x => f x || g x) l = existsb f l || existsb g l.
Proof.
  induction l as [|x l IH]; cbn; [reflexivity|]. rewrite IH.
  destruct (f x), (g x), (existsb f l), (existsb g l); reflexivity.
Qed.

(** *** Alternatives that spell words *)

Lemma spells_alternative (n : string) : spells (alternative n) n.
Proof.
  intros s k. unfold alternative. cbn [seqOf fold_right matcher].
  apply matcher_literal.
Qed.

Lemma spells_withComma (n : string) : spells (withComma n) (n ++ ",").
Proof.
  intros s k. unfold withComma. cbn [seqOf fold_right matcher].
  rewrite matcher_literal. revert s.
  induction n as [|a n IH]; intros s.
  - cbn [startsWith append String.length drop].
    destruct s as [|x s]; [reflexivity|].
    cbn [matcher startsWith drop].
    rewrite (Ascii.eqb_sym "," x), andb_true_r. reflexivity.
  - destruct s as [|x s]; [reflexivity|].
    cbn [startsWith append String.length drop].
    destruct (Ascii.eqb a x); [apply IH | reflexivity].
Qed.

Lemma spells_tail (prev : string) (rest : list string) :
  Forall2 spells (tailAlternatives prev rest) (tailWords prev rest).
Proof.
  revert prev. induction rest as [|c r IH]; intros prev; cbn.
  - constructor; [apply spells_alternative | constructor].
  - constructor; [apply spells_withComma | apply IH].
Qed.

Lemma spells_tags (names : list string) :
  Forall2 spells (tagAlternatives names) (tagWords names).
Proof.
  destruct names as [|a [|b r]]; cbn.
  - constructor.
  - constructor; [apply spells_alternative | constructor].
  - constructor; [apply spells_alternative | apply spells_tail].
Qed.

Lemma spells_builtIns :
  Forall2 spells (map alternative builtIns) builtIns.
Proof. repeat constructor; apply spells_alternative. Qed.

(** An alternation of such alternatives takes the first word that starts
    the input. *)
Lemma matcher_words (rs : list regex) (ws : list string) (s : string) :
  Forall2 spells rs ws -> rs <> [] ->
  matcher (altOf rs) s Some
  = option_map (fun w => drop (String.length w) s) (firstPrefix ws s).
Proof.
  intros H. induction H as [|r w rs ws Hr Hrs IH]; [congruence|]. intros _.
  destruct rs as [|r' rs].
  - inversion Hrs; subst. cbn [altOf firstPrefix]. rewrite Hr.
    destruct (startsWith w s); reflexivity.
  - change (altOf (r :: r' :: rs)) with (RAlt r (altOf (r' :: rs))).
    cbn [matcher firstPrefix]. rewrite Hr.
    destruct (startsWith w s); [reflexivity|].
    cbn [orElse]. apply IH. discriminate.
Qed.

Lemma firstPrefix_some (ws : list string) (s w : string) :
  firstPrefix ws s = Some w -> In w ws /\ startsWith w s = true.
Proof.
  induction ws as [|x ws IH]; cbn; [discriminate|].
  destruct (startsWith x s) eqn:E.
  - intros [= <-]. split; [now left | exact E].
  - intros H. destruct (IH H). split; [now right | assumption].
Qed.

Lemma firstPrefix_isSome (ws : list string) (s : string) :
  match firstPrefix ws s with Some _ => true | None => false end
  = existsb (fun w => startsWith w s) ws.
Proof.
  induction ws as [|x ws IH]; cbn; [reflexivity|].
  destruct (startsWith x s); [reflexivity | exact IH].
Qed.

Section Words.

Variable r : regex.
Variable ws : list string.
Hypothesis reads :
  forall s, matcher r s Some
            = option_map (fun w => drop (String.length w) s) (firstPrefix ws s).

Lemma exec_word (s matched rest : string) :
  exec r s = Some (matched, rest) -> In matched ws.
Proof.
  induction s as [|c s IH]; cbn [exec]; rewrite reads.
  - destruct (firstPrefix ws "") as [w|] eqn:E; cbn [option_map]; [|discriminate].
    intros [= <- _]. destruct (firstPrefix_some _ _ E) as [Hin Hsw].
    destruct w; [exact Hin | discriminate Hsw].
  - destruct (firstPrefix ws (String c s)) as [w|] eqn:E; cbn [option_map].
    + intros H. destruct (firstPrefix_some _ _ E) as [Hin Hsw].
      assert (M : take (String.length (String c s)
                        - String.length (drop (String.length w) (String c s)))
                    (String c s) = matched) by congruence.
      rewrite (take_matched _ _ Hsw) in M. now subst matched.
    + exact IH.
Qed.

Lemma exec_isSome (s : string) :
  match exec r s with Some _ => true | None => false end
  = existsb (includes s) ws.
Proof.
  induction s as [|c s IH]; cbn [exec]; rewrite reads.
  - pose proof (firstPrefix_isSome ws "") as F.
    assert (X : existsb (includes "") ws
                = existsb (fun w => startsWith w "") ws).
    { clear. induction ws as [|w l IH]; [reflexivity|].
      cbn [existsb]. rewrite IH.
      change (includes "" w) with (startsWith w "" || false).
      now rewrite orb_false_r. }
    rewrite X, <- F.
    destruct (firstPrefix ws ""); reflexivity.
  - pose proof (firstPrefix_isSome ws (String c s)) as F.
    cbn [includes]. rewrite existsb_orb, <- F.
    destruct (firstPrefix ws (String c s)); cbn [option_map];
      [reflexivity | exact IH].
Qed.

Lemma matchAllFrom_words (fuel : nat) (s : string) :
  Forall (fun x => In x ws) (matchAllFrom fuel r s).
Proof.
  revert s. induction fuel as [|n IH]; intros s; cbn [matchAllFrom];
    [constructor|].
  destruct (exec r s) as [[matched rest]|] eqn:E; [|constructor].
  constructor; [exact (exec_word _ E)|].
  destruct (truthy matched); [apply IH|].
  destruct rest; [constructor | apply IH].
Qed.

Lemma matchGlobal_words (s : string) :
  match matchGlobal r s with
  | Some l => l <> [] /\ Forall (fun x => In x ws) l
              /\ existsb (includes s) ws = true
  | None => existsb (includes s) ws = false
  end.
Proof.
  unfold matchGlobal.
  pose proof (matchAllFrom_words (S (String.length s)) s) as F.
  pose proof (exec_isSome s) as E.
  cbn [matchAllFrom] in *.
  destruct (exec r s) as [[matched rest]|].
  - split; [discriminate|]. split; [exact F | now symmetry].
  - now symmetry.
Qed.

End Words.

(** *** The pattern [_getRegex] builds, for any number of plain names *)

Lemma join_tail (x : string) (rest : list string) :
  join "," (x :: map (fun n => "|(" ++ n ++ ")") rest) = x ++ tailSource rest.
Proof.
  revert x. induction rest as [|c r IH]; intros x.
  - cbn. now rewrite append_empty_r.
  - change (join "," (x :: map (fun n => "|(" ++ n ++ ")") (c :: r)))
      with (x ++ "," ++ join "," (("|(" ++ c ++ ")")
                                   :: map (fun n => "|(" ++ n ++ ")") r)).
    rewrite IH. cbn [tailSource]. now rewrite !append_assoc.
Qed.

Lemma regStr_plain (a b : string) (rest : list string) :
  lacks "," (toUpperCase a) = true ->
  regStr (Some (a :: b :: rest))
  = staticRegStr ++ ("|(" ++ toUpperCase a ++ ")")
      ++ ("|(" ++ toUpperCase b ++ ")") ++ tailSource (map toUpperCase rest).
Proof.
  intros Ha. unfold regStr, arrayToString.
  rewrite <- (map_map toUpperCase (fun n => "|(" ++ n ++ ")")).
  cbn [map].
  change (join "," (("|(" ++ toUpperCase a ++ ")")
                      :: ("|(" ++ toUpperCase b ++ ")")
                      :: map (fun n => "|(" ++ n ++ ")") (map toUpperCase rest)))
    with (("|(" ++ toUpperCase a ++ ")")
            ++ String "," (join "," (("|(" ++ toUpperCase b ++ ")")
                                       :: map (fun n => "|(" ++ n ++ ")")
                                            (map toUpperCase rest)))).
  rewrite replace_first by (rewrite !lacks_app, Ha; reflexivity).
  rewrite join_tail. change ("" ++ ?x) with x. now rewrite append_empty_r.
Qed.

Lemma psteps_tail (rest : list string) (prev : string) (al : list regex) :
  forallb isLiteral rest = true ->
  exists F,
    psteps (tailSource rest) (mkFrame al [RGroup (literalPattern prev)], [])
    = Compiled (F, [])
    /\ rev (seqOf (rev (terms F)) :: alts F)
       = (rev al ++ tailAlternatives prev rest)%list.
Proof.
  revert prev al. induction rest as [|c r IH]; intros prev al H.
  - eexists. split; [reflexivity|]. reflexivity.
  - cbn [forallb] in H. apply andb_true_iff in H as [Hc Hr].
    cbn [tailSource].
    change ("," ++ ("|(" ++ c ++ ")") ++ tailSource r)
      with (String "," (("|(" ++ c ++ ")") ++ tailSource r)).
    cbn [psteps].
    change (pstep "," (mkFrame al [RGroup (literalPattern prev)], []))
      with (Compiled (mkFrame al [RChar ","; RGroup (literalPattern prev)],
                      @nil frame)).
    cbv iota. rewrite psteps_app, (psteps_group c al _ Hc).
    destruct (IH c (seqOf (rev [RChar ","; RGroup (literalPattern prev)]) :: al) Hr)
      as (F & HF & HR).
    exists F. split; [exact HF|]. rewrite HR. cbn [rev tailAlternatives].
    now rewrite <- app_assoc.
Qed.

Lemma getRegex_words (names : list string) :
  forallb plainName names = true ->
  parse (regStr (Some names))
  = Compiled (altOf (map alternative builtIns
                       ++ tagAlternatives (map toUpperCase names))).
Proof.
  intros H. destruct names as [|a [|b rest]].
  - reflexivity.
  - apply (getRegex_known (Some [a])); [cbn; lia | exact H].
  - cbn [forallb] in H.
    apply andb_true_iff in H as [Pa H]. apply andb_true_iff in H as [Pb Pr].
    destruct (plainName_upper a Pa) as [La Ca].
    destruct (plainName_upper b Pb) as [Lb _].
    assert (Lr : forallb isLiteral (map toUpperCase rest) = true).
    { clear -Pr. induction rest as [|c r IH]; [reflexivity|].
      cbn [forallb map] in *. apply andb_true_iff in Pr as [Pc Pr].
      now rewrite (proj1 (plainName_upper c Pc)), IH. }
    rewrite (regStr_plain a b rest Ca). unfold parse, staticRegStr.
    rewrite psteps_app, parse_static. cbv iota.
    rewrite psteps_app, (psteps_group _ _ _ La).
    rewrite psteps_app, (psteps_group _ _ _ Lb).
    match goal with
    | |- context [psteps (tailSource _) (mkFrame ?al _, [])] =>
        destruct (psteps_tail (map toUpperCase rest) (toUpperCase b) al Lr)
          as (F & HF & HR)
    end.
    rewrite HF. unfold closeFrame. rewrite HR. reflexivity.
Qed.

Lemma known_pattern_reads (names : list string) (s : string) :
  matcher (altOf (map alternative builtIns
                    ++ tagAlternatives (map toUpperCase names))) s Some
  = option_map (fun w => drop (String.length w) s)
      (firstPrefix (patternWords names) s).
Proof.
  apply matcher_words; [|discriminate].
  unfold patternWords. apply Forall2_app; [apply spells_builtIns | apply spells_tags].
Qed.

Lemma prompt_pattern (i : instance) :
  forallb plainName (registeredNames i) = true ->
  parse (regStr (snd (_getPromptMessage i)))
  = Compiled (altOf (map alternative builtIns
                       ++ tagAlternatives (map toUpperCase (registeredNames i)))).
Proof.
  unfold _getPromptMessage, registeredNames.
  destruct (tags i) as [o|]; cbn [snd]; [apply getRegex_words | reflexivity].
Qed.

(** X14. What the flow accepts, on ASCII text, for any number of tags
    with plain names.  The words of the pattern are the four built-in
    names, the first and the last tag name, and every tag name in between
    followed by a comma (only the first separating comma is removed from
    the pattern).  A reply is committed exactly when its upper case
    contains one of these words, and every committed token is one of
    them; otherwise, or without a reply, the operator is alerted and
    nothing changes. *)
Theorem flow_commits_pattern_words (i : instance) (h : host) :
  asciiNames i = true ->
  asciiReplies h = true ->
  forallb plainName (registeredNames i) = true ->
  let message := fst (_getPromptMessage i) in
  let ws := patternWords (registeredNames i) in
  match nextReply h with
  | Some reply =>
      if existsb (includes (toUpperCase reply)) ws
      then exists l,
             l <> [] /\ Forall (fun x => In x ws) l
             /\ promptingVerbosity (i, h)
                = (Return tt, committed l message (i, h))
      else promptingVerbosity (i, h) = (Return tt, alerted message (i, h))
  | None => promptingVerbosity (i, h) = (Return tt, alerted message (i, h))
  end.
Proof.
  intros _ _ Hplain message ws.
  pose proof (promptingVerbosity_run i h) as R. cbv zeta in R.
  rewrite (prompt_pattern i Hplain) in R. fold message in R.
  destruct (nextReply h) as [reply|]; [|exact R].
  pose proof (@matchGlobal_words _ _
                (known_pattern_reads (registeredNames i)) (toUpperCase reply)) as W.
  fold ws in W.
  destruct (matchGlobal _ (toUpperCase reply)) as [l|].
  - destruct W as (Hne & Hall & ->). exists l. repeat split; assumption.
  - rewrite W. exact R.
Qed.

Lemma flow_commits_pattern_words_witness :
  promptingVerbosity (threeTagsState "db")
  = (Return tt,
     alerted (fst (_getPromptMessage (fst (threeTagsState "db"))))
       (threeTagsState "db"))
  /\ promptingVerbosity (threeTagsState "net")
     = (Return tt,
        committed ["NET"]
          (fst (_getPromptMessage (fst (threeTagsState "net"))))
          (threeTagsState "net")).
Proof.
  split.
  - exact (flow_commits_pattern_words (fst (threeTagsState "db"))
             (snd (threeTagsState "db")) eq_refl eq_refl eq_refl).
  - reflexivity.
Defined.

End PatternFacts.

(** ** More on the store and on pattern errors *)

Module StoreFacts.
Import JsStringFacts JsRegExpFacts Consoler Spec Behaviour ConsolerFacts.
Local Open Scope consoler_scope.

(** X15. Writing a non-empty list of comma-free ASCII tokens (not all
    empty) and reading the store back yields the upper-cased join, which splits
    on commas into the same tokens in upper case: the store keeps the
    number and the order of the tokens and only changes their case. *)
Theorem store_round_trip (i : instance) (h : host) (l : list string) :
  l <> [] ->
  forallb isAscii l = true ->
  forallb (lacks ",") l = true ->
  truthy (join "," l) = true ->
  fst ((_setLocalVerbose ;; _getLocalVerbose) (withVerboseMode (Some l) i, h))
  = Return (Some (toUpperCase (join "," l)))
  /\ split "," (toUpperCase (join "," l)) = map toUpperCase l.
Proof.
  intros Hne _ Hl Ht.
  destruct (set_get_round_trip i h Hne Hl Ht) as (v & Hv & Hs).
  assert (E : v = toUpperCase (join "," l)).
  { unfold bind in Hv.
    rewrite (setLocalVerbose_run _ h (l := l)) in Hv by reflexivity.
    rewrite getLocalVerbose_run in Hv. unfold persisted in Hv.
    destruct h; cbn in Hv. rewrite Ht in Hv. cbn in Hv. congruence. }
  subst v. split; [now rewrite Hv | exact Hs].
Qed.

Lemma store_round_trip_witness :
  fst ((_setLocalVerbose ;; _getLocalVerbose)
         (withVerboseMode (Some ["warn"; "Net"; "info"]) blank,
          Scenario.prodHost))
  = Return (Some "WARN,NET,INFO")
  /\ split "," "WARN,NET,INFO" = ["WARN"; "NET"; "INFO"].
Proof.
  refine (store_round_trip blank Scenario.prodHost
            (l := ["warn"; "Net"; "info"]) _ eq_refl eq_refl eq_refl).
  discriminate.
Defined.



End StoreFacts.

(** ** The prompts of the flow *)

Module PromptFacts.
Import JsStringFacts JsRegExpFacts Consoler Spec Behaviour ConsolerFacts.
Local Open Scope consoler_scope.

Lemma join_in (sep x : string) (l : list string) :
  In x l -> exists pre post, join sep l = pre ++ x ++ post.
Proof.
  induction l as [|y l IH]; [intros []|].
  intros [->|H].
  - destruct l as [|z l].
    + exists "", "". cbn. now rewrite append_empty_r.
    + exists "", (sep ++ join sep (z :: l)). reflexivity.
  - destruct l as [|z l]; [destruct H|].
    destruct (IH H) as (pre & post & E).
    exists (y ++ sep ++ pre), post.
    change (join sep (y :: z :: l)) with (y ++ sep ++ join sep (z :: l)).
    rewrite E. now rewrite !append_assoc.
Qed.

(** X17. The prompt for the verbose mode names every registered tag
    with an ASCII name in upper case; without a tag mapping it is the
    fixed text about the four built-in categories, and no tag names are
    handed to the pattern. *)
Theorem prompt_names_registered_tags (i : instance) :
  (forall name, In name (registeredNames i) -> isAscii name = true ->
     includes (fst (_getPromptMessage i)) (toUpperCase name) = true)
  /\ (tags i = None ->
      _getPromptMessage i
      = ("Enter verbose mode? options:(ex:'warn,Info,..'): " ++ LF
           ++ " 🔵 Info        🟠 Warn           🔴 Error       🟢 Success "
           ++ LF, None)).
Proof.
  split.
  - intros name Hin _. unfold _getPromptMessage, registeredNames in *.
    destruct (tags i) as [o|]; [|destruct Hin]. cbn [fst].
    assert (Hx : In (toUpperCase ("🚀 " ++ name ++ " " ++ LF))
                   (map (fun tagName => toUpperCase ("🚀 " ++ tagName ++ " " ++ LF))
                      (JsObject.keys o)))
      by (apply in_map_iff; now exists name).
    destruct (join_in "," _ _ Hx) as (pre & post & E).
    unfold arrayToString. rewrite E, !toUpperCase_app.
    match goal with
    | |- includes (?a ++ ?b ++ ?c ++ ?d ++ ?e ++ ?f ++ ?g
                   ++ pre ++ (?u ++ toUpperCase name ++ ?w) ++ post) _ = true =>
        replace (a ++ b ++ c ++ d ++ e ++ f ++ g
                 ++ pre ++ (u ++ toUpperCase name ++ w) ++ post)
          with ((a ++ b ++ c ++ d ++ e ++ f ++ g ++ pre ++ u)
                  ++ toUpperCase name ++ (w ++ post))
          by (now rewrite !append_assoc)
    end.
    apply includes_app.
  - intros H. unfold _getPromptMessage. rewrite H.
    now rewrite append_empty_r.
Qed.

Lemma prompt_names_registered_tags_witness :
  includes (fst (_getPromptMessage (fst (threeTagsState "db")))) "UI" = true.
Proof.
  apply (proj1 (prompt_names_registered_tags (fst (threeTagsState "db"))) "ui");
    [|reflexivity].
  vm_compute. right. right. left. reflexivity.
Defined.

Lemma promptingVerbosity_prompts (i : instance) (h : host) :
  exists es,
    trace (snd (snd (promptingVerbosity (i, h))))
    = (trace h ++ PromptCall (fst (_getPromptMessage i)) :: es)%list
    /\ filter isPrompt es = []
    /\ replies (snd (snd (promptingVerbosity (i, h)))) = tl (replies h).
Proof.
  pose proof (promptingVerbosity_run i h) as R. cbv zeta in R. rewrite R.
  destruct (parse _) as [r| |].
  - destruct (match nextReply h with
              | Some reply => matchGlobal r (toUpperCase reply)
              | None => None
              end) as [l|].
    + exists [SetItem "verbose" (join "," l); Reload].
      destruct h; cbn. rewrite <- app_assoc. repeat split.
    + exists [AlertCall "Wrong Verbose Mode!"].
      destruct h; cbn. rewrite <- app_assoc. repeat split.
  - exists []. destruct h; cbn. repeat split.
  - exists []. destruct h; cbn. repeat split.
Qed.

(** X18. In a development environment the flow never asks for the
    password: it prompts exactly once, for the verbose mode, and uses up
    exactly one reply of the operator, however it ends. *)
Theorem development_flow_prompts_once (i : instance) (h : host) :
  isDevelopment i = true ->
  filter isPrompt (emitted (i, h) (snd (_verbose (i, h))))
  = [PromptCall (fst (_getPromptMessage i))]
  /\ replies (snd (snd (_verbose (i, h)))) = tl (replies h).
Proof.
  intros Hdev. unfold _verbose, bind. rewrite autorizeDeveloper_run, Hdev.
  unfold emit, modifyHost. cbn [fst snd].
  destruct (promptingVerbosity_prompts i
              (record [ConsoleLog [VString "Authorized"]] h))
    as (es & Htr & Hp & Hr).
  split.
  - rewrite (emitted_app (i, h) _
               (ConsoleLog [VString "Authorized"]
                  :: PromptCall (fst (_getPromptMessage i)) :: es)).
    + cbn. now rewrite Hp.
    + rewrite Htr. destruct h; cbn. now rewrite <- app_assoc.
  - rewrite Hr. destruct h; reflexivity.
Qed.

Lemma development_flow_prompts_once_witness :
  replies (snd (snd (_verbose (fst Scenario.cppState,
                               withReplies [Some "info"; Some "later"]
                                 (snd Scenario.cppState)))))
  = [Some "later"].
Proof.
  exact (proj2 (development_flow_prompts_once (fst Scenario.cppState)
                  (withReplies [Some "info"; Some "later"]
                     (snd Scenario.cppState)) eq_refl)).
Defined.

End PromptFacts.
